(** * Playslave-C++ : the AudioOutput playback engine

    A shallow embedding of [src/audio/audio_output.cpp]: the decode-and-fill
    loop ([Update], [PreFillRingBuffer], [SeekToPositionMicroseconds]) and
    the PortAudio callback state machine ([paCallbackFun] and its steps),
    followed by the properties of the engine that the design document
    states.

    Conventions.
    - [std::uint64_t] and [unsigned long] values are [Z] with the
      wrap-around [wrap64] written where the source does arithmetic.
    - [frame] is the [std::vector<char>] of the engine; [frame_iterator]
      is kept as the byte offset of the iterator from [frame.begin()].
    - [assert] is modelled as in a checked build: a failed assertion ends
      the run with [Abort].  [throw] ends it with [Throw], keeping the
      state reached so far.
    - The destination buffer of the callback is raw memory, a map from
      addresses to bytes; [char *] values are addresses. *)

From Stdlib Require Import String.
From Stdlib Require Import ZArith List Lia Bool.
Import ListNotations.
Open Scope Z_scope.

Set Implicit Arguments.

(* ------------------------------------------------------------------ *)
(** ** Machine integers and raw memory *)

Definition byte := Byte.byte.

Definition two64 : Z := 2 ^ 64.
(** Arithmetic on [std::uint64_t] / [unsigned long]. *)
Definition wrap64 (z : Z) : Z := z mod two64.
Definition LONG_MAX : Z := 2 ^ 63 - 1.

Definition Memory := Z -> byte.

(** Copy of [data] to address [p], as the ring buffer's [Read] and
    [memcpy] do. *)
Definition store (mem : Memory) (p : Z) (data : list byte) : Memory :=
  fun a =>
    if (p <=? a) && (a <? p + Z.of_nat (length data))
    then nth (Z.to_nat (a - p)) data Byte.x00
    else mem a.

(** [memset(p, v, n)]. *)
Definition memset (mem : Memory) (p : Z) (v : byte) (n : Z) : Memory :=
  fun a => if (p <=? a) && (a <? p + n) then v else mem a.

(** The [n] bytes found at address [p]. *)
Definition load (mem : Memory) (p : Z) (n : nat) : list byte :=
  map (fun i => mem (p + Z.of_nat i)) (seq 0 n).

(* ------------------------------------------------------------------ *)
(** ** Errors and the engine monad *)

Definition MSG_OUTPUT_RINGWRITE : String.string :=
  "Ring buffer write error"%string.

Inductive Error : Type :=
| InternalError (msg : String.string).

Inductive Outcome (S A : Type) : Type :=
| Ok (a : A) (s : S)
| Throw (e : Error) (s : S)
| Abort.

Arguments Ok {S A} a s.
Arguments Throw {S A} e s.
Arguments Abort {S A}.

Definition M (S A : Type) : Type := S -> Outcome S A.

Definition ret {S A} (a : A) : M S A := fun s => Ok a s.

Definition bind {S A B} (m : M S A) (k : A -> M S B) : M S B :=
  fun s =>
    match m s with
    | Ok a s' => k a s'
    | Throw e s' => Throw e s'
    | Abort => Abort
    end.

Definition get {S} : M S S := fun s => Ok s s.
Definition modify {S} (f : S -> S) : M S unit := fun s => Ok tt (f s).
Definition throw {S A} (e : Error) : M S A := fun s => Throw e s.
Definition assert {S} (b : bool) : M S unit :=
  fun s => if b then Ok tt s else Abort.

Notation "x <- m ;; k" := (bind m (fun x => k))
  (at level 61, m at next level, right associativity).
Notation "m ;;; k" := (bind m (fun _ => k))
  (at level 61, right associativity).

(* ------------------------------------------------------------------ *)
(** ** The decoder collaborator *)

(** Modelled from the spec: the AudioDecoder class (audio_decoder.hpp and
    its implementation are not part of the sources at hand).  Section 6 of
    the design document gives its interface: [Decode] yields successive
    frames, an empty frame signalling exhaustion; [SeekTo] repositions;
    the four conversions are fixed by the sample format, the byte
    conversions by its bytes-per-sample.  The frames the decoder will
    yield are a script [frames] indexed from [next_frame]; the time
    conversions are left as arbitrary functions.  Decoder failures
    (exceptions thrown inside the decoder) are outside the model. *)
Record AudioDecoder : Type := mkDecoder {
  bytes_per_sample : Z;
  frames : nat -> list byte;
  next_frame : nat;
  frame_at_time : Z -> nat;
  samples_for_time : Z -> Z;
  time_for_samples : Z -> Z
}.

Definition Decode (d : AudioDecoder) : list byte * AudioDecoder :=
  (frames d (next_frame d),
   mkDecoder (bytes_per_sample d) (frames d) (S (next_frame d))
             (frame_at_time d) (samples_for_time d) (time_for_samples d)).

Definition DecoderSeekToPositionMicroseconds (d : AudioDecoder) (t : Z)
  : AudioDecoder :=
  mkDecoder (bytes_per_sample d) (frames d) (frame_at_time d t)
            (frame_at_time d) (samples_for_time d) (time_for_samples d).

Definition DecoderByteCountForSampleCount (d : AudioDecoder) (samples : Z) : Z :=
  wrap64 (samples * bytes_per_sample d).

Definition DecoderSampleCountForByteCount (d : AudioDecoder) (bytes : Z) : Z :=
  bytes / bytes_per_sample d.

Definition SampleCountForPositionMicroseconds (d : AudioDecoder) (t : Z) : Z :=
  samples_for_time d t.

Definition PositionMicrosecondsForSampleCount (d : AudioDecoder) (n : Z) : Z :=
  time_for_samples d n.

(* ------------------------------------------------------------------ *)
(** ** The ring buffer interface *)

(** The engine holds its ring buffer through the abstract [RingBuffer]
    interface; two backends exist in the repository and one is picked at
    build time.  Counts are in samples.  [Write r src n] is given the
    bytes visible from the source pointer and returns the count written;
    [Read r n] returns the bytes it copied to the destination and the
    count read. *)
Class RingBuffer (R : Type) : Type := {
  WriteCapacity : R -> Z;
  ReadCapacity : R -> Z;
  Write : R -> list byte -> Z -> Z * R;
  Read : R -> Z -> (list byte * Z) * R;
  Flush : R -> R
}.

(** The contract of section 4.1 of the design document, for one producer
    and one consumer that do not overlap inside an operation. *)
Class RingBufferLaws (R : Type) {RB : RingBuffer R} : Prop := {
  WriteCapacity_nonneg : forall r, 0 <= WriteCapacity r;
  ReadCapacity_nonneg : forall r, 0 <= ReadCapacity r;
  Write_full : forall r src n,
      0 < n <= WriteCapacity r -> fst (Write r src n) = n;
  Write_WriteCapacity : forall r src n,
      0 <= n ->
      WriteCapacity (snd (Write r src n)) = WriteCapacity r - fst (Write r src n);
  Write_ReadCapacity : forall r src n,
      0 <= n ->
      ReadCapacity (snd (Write r src n)) = ReadCapacity r + fst (Write r src n);
  Read_full : forall r n,
      0 <= n <= ReadCapacity r -> snd (fst (Read r n)) = n;
  Read_ReadCapacity : forall r n,
      0 <= n ->
      ReadCapacity (snd (Read r n)) = ReadCapacity r - snd (fst (Read r n));
  Flush_ReadCapacity : forall r, ReadCapacity (Flush r) = 0
}.

Arguments RingBufferLaws R {RB}.

(* ------------------------------------------------------------------ *)
(** ** A ring buffer following the design document *)

Module SpecRing.

(** The first [k] bytes visible from a source pointer whose known
    extent is [src]; bytes past the known extent read as zero. *)
Definition take_bytes (k : nat) (src : list byte) : list byte :=
  firstn k (src ++ repeat Byte.x00 k).

(** [n] units of [size] bytes each, cut from [src]. *)
Fixpoint chunks (size n : nat) (src : list byte) : list (list byte) :=
  match n with
  | O => []
  | S n' => take_bytes size src :: chunks size n' (skipn size src)
  end.

(** Modelled from the spec: the concrete ring buffer (ringbuffer_pa.hpp
    and ringbuffer_boost.hpp are not part of the sources at hand).
    Section 4.1: a fixed-capacity first-in first-out store of
    fixed-size units; [Write] copies up to [count] units into free
    space, [Read] copies up to [count] units out, both return the count
    moved, [Flush] discards the content.  The state is the queue of
    stored units and the number of free slots, so that read capacity
    plus write capacity is the total capacity by construction. *)
Record t : Type := mk {
  elem_size : nat;
  free : nat;
  units : list (list byte)
}.

Definition create (elem_size capacity : nat) : t := mk elem_size capacity [].

Definition write_capacity (r : t) : Z := Z.of_nat (free r).
Definition read_capacity (r : t) : Z := Z.of_nat (length (units r)).

Definition write (r : t) (src : list byte) (count : Z) : Z * t :=
  let w := Nat.min (Z.to_nat count) (free r) in
  (Z.of_nat w,
   mk (elem_size r) (free r - w) (units r ++ chunks (elem_size r) w src)).

Definition read (r : t) (count : Z) : (list byte * Z) * t :=
  let k := Nat.min (Z.to_nat count) (length (units r)) in
  ((concat (firstn k (units r)), Z.of_nat k),
   mk (elem_size r) (free r + k) (skipn k (units r))).

Definition flush (r : t) : t :=
  mk (elem_size r) (free r + length (units r)) [].

End SpecRing.

#[export] Instance SpecRing_RingBuffer : RingBuffer SpecRing.t := {
  WriteCapacity := SpecRing.write_capacity;
  ReadCapacity := SpecRing.read_capacity;
  Write := SpecRing.write;
  Read := SpecRing.read;
  Flush := SpecRing.flush
}.

(* ------------------------------------------------------------------ *)
(** ** The engine state *)

(** The data members of [AudioOutput] that the fill and drain paths use.
    ([out_strm], the driver's stream handle, plays no part in them.) *)
Record AudioOutput (R : Type) : Type := mkAudioOutput {
  av : AudioDecoder;
  ring_buf : R;
  position_sample_count : Z;
  frame : list byte;
  frame_iterator : Z;
  file_ended : bool
}.

Arguments mkAudioOutput {R} av ring_buf position_sample_count frame
  frame_iterator file_ended.

Section Engine.

Context {R : Type} `{RB : RingBuffer R}.

Abbreviation State := (AudioOutput R).

Definition set_av (d : AudioDecoder) (st : State) : State :=
  mkAudioOutput d (ring_buf st) (position_sample_count st) (frame st)
                (frame_iterator st) (file_ended st).
Definition set_ring_buf (r : R) (st : State) : State :=
  mkAudioOutput (av st) r (position_sample_count st) (frame st)
                (frame_iterator st) (file_ended st).
Definition set_position_sample_count (n : Z) (st : State) : State :=
  mkAudioOutput (av st) (ring_buf st) n (frame st)
                (frame_iterator st) (file_ended st).
Definition set_frame (f : list byte) (st : State) : State :=
  mkAudioOutput (av st) (ring_buf st) (position_sample_count st) f
                (frame_iterator st) (file_ended st).
Definition set_frame_iterator (i : Z) (st : State) : State :=
  mkAudioOutput (av st) (ring_buf st) (position_sample_count st) (frame st)
                i (file_ended st).
Definition set_file_ended (b : bool) (st : State) : State :=
  mkAudioOutput (av st) (ring_buf st) (position_sample_count st) (frame st)
                (frame_iterator st) b.

(** [frame.empty()] *)
Definition frame_empty (st : State) : bool :=
  match frame st with [] => true | _ :: _ => false end.

(** [frame.end()], as an offset from [frame.begin()]. *)
Definition frame_end (st : State) : Z := Z.of_nat (length (frame st)).

(* -------------------------------------------------------------- *)
(** *** Fill side *)

Definition CurrentPositionMicroseconds (st : State) : Z :=
  PositionMicrosecondsForSampleCount (av st) (position_sample_count st).

Definition ByteCountForSampleCount (st : State) (samples : Z) : Z :=
  DecoderByteCountForSampleCount (av st) samples.

Definition SampleCountForByteCount (st : State) (bytes : Z) : Z :=
  DecoderSampleCountForByteCount (av st) bytes.

Definition RingBufferWriteCapacity (st : State) : Z :=
  WriteCapacity (ring_buf st).

Definition FrameFinished (st : State) : bool :=
  frame_end st <=? frame_iterator st.

Definition FileEnded (st : State) : bool := file_ended st.

(** [frame.clear(); frame_iterator = frame.end(); file_ended = false;] *)
Definition ClearFrame (st : State) : State :=
  set_file_ended false (set_frame_iterator 0 (set_frame [] st)).

Definition DecodeIfFrameEmpty : M State bool :=
  st <- get ;;
  assert (frame_empty st || negb (FrameFinished st)) ;;;
  (if FrameFinished st
   then modify (fun s =>
                  let (f, d) := Decode (av s) in
                  set_frame_iterator 0 (set_frame f (set_av d s)))
   else ret tt) ;;;
  st' <- get ;;
  ret (negb (frame_empty st')).

Definition RingBufferTransferCount : M State Z :=
  st <- get ;;
  assert (negb (frame_empty st)) ;;;
  let bytes := frame_end st - frame_iterator st in
  assert (0 <=? bytes) ;;;
  let samples := SampleCountForByteCount st (wrap64 bytes) in
  ret (Z.min samples (RingBufferWriteCapacity st)).

Definition AdvanceFrameIterator (sample_count : Z) : M State unit :=
  st <- get ;;
  let byte_count := ByteCountForSampleCount st sample_count in
  assert (sample_count <=? byte_count) ;;;
  assert (0 <? byte_count) ;;;
  modify (fun s => set_frame_iterator (frame_iterator s + byte_count) s) ;;;
  st1 <- get ;;
  (if FrameFinished st1
   then modify ClearFrame ;;;
        st2 <- get ;;
        assert (FrameFinished st2)
   else ret tt) ;;;
  st3 <- get ;;
  assert (frame_empty st3
          || ((0 <? frame_iterator st3)
              && (frame_iterator st3 <? frame_end st3))).

(** The source pointer [&( *frame_iterator)] shows the ring buffer the
    bytes of the frame from the iterator on.  The cast of the count to
    the ring buffer's size type is taken as value preserving. *)
Definition WriteToRingBuffer (sample_count : Z) : M State unit :=
  assert (0 <? sample_count) ;;;
  st <- get ;;
  let src := skipn (Z.to_nat (frame_iterator st)) (frame st) in
  let (written_count, r') := Write (ring_buf st) src sample_count in
  modify (set_ring_buf r') ;;;
  (if negb (written_count =? sample_count)
   then throw (InternalError MSG_OUTPUT_RINGWRITE)
   else ret tt) ;;;
  assert (0 <? written_count) ;;;
  AdvanceFrameIterator written_count.

Definition WriteAllAvailableToRingBuffer : M State unit :=
  count <- RingBufferTransferCount ;;
  if 0 <? count then WriteToRingBuffer count else ret tt.

Definition Update : M State bool :=
  more_frames_available <- DecodeIfFrameEmpty ;;
  (if more_frames_available
   then st <- get ;;
        assert (negb (frame_empty st)) ;;;
        WriteAllAvailableToRingBuffer
   else ret tt) ;;;
  modify (set_file_ended (negb more_frames_available)) ;;;
  ret more_frames_available.

Definition SeekToPositionMicroseconds (microseconds : Z) (st : State)
  : State :=
  let st1 :=
    set_av (DecoderSeekToPositionMicroseconds (av st) microseconds) st in
  let st2 :=
    set_position_sample_count
      (SampleCountForPositionMicroseconds (av st1) microseconds) st1 in
  let st3 := ClearFrame st2 in
  set_ring_buf (Flush (ring_buf st3)) st3.

(** The constructor: a decoder for the file, a ring buffer whose unit
    is one sample, position zero, no frame. *)
Definition new_AudioOutput (decoder : AudioDecoder) (new_ring : Z -> R)
  : State :=
  ClearFrame
    (mkAudioOutput decoder
                   (new_ring (DecoderByteCountForSampleCount decoder 1))
                   0 [] 0 false).

(** *** Spin-up *)

Section Spinup.

(** The two constants of constants.h (not part of the sources at
    hand) that [PreFillRingBuffer] reads. *)
Variables RINGBUF_SIZE SPINUP_SIZE : Z.

(** The loop condition [more && c > 0 && RINGBUF_SIZE - c < SPINUP_SIZE]. *)
Definition spinup_continues (more : bool) (c : Z) : bool :=
  more && (0 <? c) && (wrap64 (RINGBUF_SIZE - c) <? SPINUP_SIZE).

(** The [while] loop of [PreFillRingBuffer]; [None] when [fuel]
    iterations were not enough to leave it.  The value is the final
    [more]. *)
Fixpoint PreFillLoop (fuel : nat) (more : bool) (c : Z) (st : State)
  : option (Outcome State bool) :=
  if spinup_continues more c then
    match fuel with
    | O => None
    | S fuel' =>
        match Update st with
        | Ok more' st' =>
            PreFillLoop fuel' more' (RingBufferWriteCapacity st') st'
        | Throw e st' => Some (Throw e st')
        | Abort => Some Abort
        end
    end
  else Some (Ok more st).

Definition PreFillRingBuffer (fuel : nat) (st : State)
  : option (Outcome State bool) :=
  PreFillLoop fuel true (RingBufferWriteCapacity st) st.

End Spinup.

End Engine.

(* ------------------------------------------------------------------ *)
(** ** Drain side: the PortAudio callback *)

Inductive PaStreamCallbackResult : Type :=
| paContinue
| paComplete
| paAbort.

Definition PaStreamCallbackResult_eqb (a b : PaStreamCallbackResult) : bool :=
  match a, b with
  | paContinue, paContinue | paComplete, paComplete | paAbort, paAbort => true
  | _, _ => false
  end.

(** [std::pair<PaStreamCallbackResult, unsigned long>]: the verdict and the
    number of samples supplied so far. *)
Definition PlayCallbackStepResult : Type := PaStreamCallbackResult * Z.

Section Callback.

Context {R : Type} `{RB : RingBuffer R}.

Abbreviation State := (AudioOutput R).

(** [output] is passed by reference: the advanced pointer is the first
    component of the value.  The pointer moves by the count that [Read]
    returns; the position and the returned count are the count that
    was asked for. *)
Definition ReadSamplesToOutput (output : Z)
           (output_capacity buffered_count : Z)
           (mem : Memory) (st : State)
  : (Z * Z) * Memory * State :=
  let transfer_sample_count :=
    Z.min (Z.min output_capacity buffered_count) LONG_MAX in
  let '((data, read_count), r') :=
    Read (ring_buf st) transfer_sample_count in
  let mem' := store mem output data in
  let output' := output + read_count in
  let st' :=
    set_position_sample_count
      (wrap64 (position_sample_count st + transfer_sample_count))
      (set_ring_buf r' st) in
  ((output', transfer_sample_count), mem', st').

(** [out] is this function's own copy of the pointer: what
    [ReadSamplesToOutput] does to it ends here. *)
Definition PlayCallbackSuccess (out : Z) (avail frames_per_buf : Z)
           (in_ : PlayCallbackStepResult) (mem : Memory) (st : State)
  : PlayCallbackStepResult * Memory * State :=
  let samples_pa_wants := wrap64 (frames_per_buf - snd in_) in
  let '((_, samples_read), mem', st') :=
    ReadSamplesToOutput out avail samples_pa_wants mem st in
  ((paContinue, wrap64 (snd in_ + samples_read)), mem', st').

Definition PlayCallbackFailure (out : Z) (avail frames_per_buf : Z)
           (in_ : PlayCallbackStepResult) (mem : Memory) (st : State)
  : PlayCallbackStepResult * Memory * State :=
  if FileEnded st
  then ((paComplete, snd in_), mem, st)
  else ((paContinue, frames_per_buf),
        memset mem out Byte.x00 (ByteCountForSampleCount st frames_per_buf),
        st).

Definition PlayCallbackStep (out : Z) (frames_per_buf : Z)
           (in_ : PlayCallbackStepResult) (mem : Memory) (st : State)
  : PlayCallbackStepResult * Memory * State :=
  let avail := ReadCapacity (ring_buf st) in
  if avail =? 0
  then PlayCallbackFailure out avail frames_per_buf in_ mem st
  else PlayCallbackSuccess out avail frames_per_buf in_ mem st.

(** The state the fill context leaves behind after one more [Update],
    whether it returned or threw. *)
Definition after_Update (st : State) : State :=
  match Update st with
  | Ok _ st' => st'
  | Throw _ st' => st'
  | Abort => st
  end.

(** The fill context runs on its own thread.  [fill_context_runs n] is
    the effect of [n] calls of [Update] on the shared state. *)
Definition fill_context_runs (n : nat) (st : State) : State :=
  Nat.iter n after_Update st.

(** [result.first == paContinue && result.second < frames_per_buf] *)
Definition callback_continues (frames_per_buf : Z)
           (result : PlayCallbackStepResult) : bool :=
  PaStreamCallbackResult_eqb (fst result) paContinue
  && (snd result <? frames_per_buf).

(** The [while] loop of [paCallbackFun].  The schedule [sched] says how
    many [Update] calls the fill context completes before each step
    of the callback (none once the list is used up); the callback
    running alone is the schedule [[]].  [None] when [fuel] steps were
    not enough to leave the loop. *)
Fixpoint paCallbackLoop (fuel : nat) (sched : list nat)
         (cout : Z) (frames_per_buf : Z)
         (result : PlayCallbackStepResult) (mem : Memory) (st : State)
  : option (PlayCallbackStepResult * Memory * State) :=
  if callback_continues frames_per_buf result then
    match fuel with
    | O => None
    | S fuel' =>
        let st1 := fill_context_runs (hd 0%nat sched) st in
        let '(result', mem', st') :=
          PlayCallbackStep cout frames_per_buf result mem st1 in
        paCallbackLoop fuel' (tl sched) cout frames_per_buf result' mem' st'
    end
  else Some (result, mem, st).

(** One invocation of the callback for [frames_per_buf] frames into the
    buffer at [out], under the schedule [sched].  Beside the verdict
    that the source returns, the value keeps the count supplied, the
    memory and the engine state.  A step that goes on supplies at least
    one sample, so [frames_per_buf] steps are given as fuel. *)
Definition paCallbackFun (sched : list nat) (out : Z) (frames_per_buf : Z)
           (mem : Memory) (st : State)
  : option (PlayCallbackStepResult * Memory * State) :=
  let cout := out in
  paCallbackLoop (Z.to_nat frames_per_buf) sched cout frames_per_buf
                 (paContinue, 0) mem st.

End Callback.

(* ------------------------------------------------------------------ *)
(** ** Predicates and derived quantities of the fill side *)

Section FillPredicates.

Context {R : Type} `{RB : RingBuffer R}.

Abbreviation State := (AudioOutput R).

(** What can be asked of any decoder: a positive sample width, and
    frames whose size fits the machine. *)
Definition decoder_ok (d : AudioDecoder) : Prop :=
  0 < bytes_per_sample d
  /\ forall i, Z.of_nat (length (frames d i)) < two64.

(** The iterator is inside the frame, or the frame is empty. *)
Definition frame_ok (st : State) : Prop :=
  (frame st = [] /\ frame_iterator st = 0)
  \/ 0 <= frame_iterator st < frame_end st.

Definition engine_ok (st : State) : Prop :=
  decoder_ok (av st) /\ frame_end st < two64 /\ frame_ok st.

(** The state after the conditional fetch of [DecodeIfFrameEmpty]. *)
Definition fetched (st : State) : State :=
  if FrameFinished st
  then set_frame_iterator 0
         (set_frame (fst (Decode (av st))) (set_av (snd (Decode (av st))) st))
  else st.

(** The count that [RingBufferTransferCount] computes. *)
Definition transfer_count (st : State) : Z :=
  Z.min ((frame_end st - frame_iterator st) / bytes_per_sample (av st))
        (WriteCapacity (ring_buf st)).

(** The bytes the ring buffer is shown by [WriteToRingBuffer]. *)
Definition write_source (st : State) : list byte :=
  skipn (Z.to_nat (frame_iterator st)) (frame st).

(** The state after the iterator moved over [n] samples. *)
Definition advanced (n : Z) (st : State) : State :=
  if frame_end st <=? frame_iterator st + n * bytes_per_sample (av st)
  then ClearFrame st
  else set_frame_iterator (frame_iterator st + n * bytes_per_sample (av st)) st.

End FillPredicates.

(** The frame/iterator relation that [AdvanceFrameIterator] asserts:
    no frame, or the iterator strictly between [begin()] and [end()]. *)
Definition cursor_strictly_inside {R : Type} (st : AudioOutput R) : Prop :=
  frame st = [] \/ 0 < frame_iterator st < frame_end st.

(** The weaker relation that [DecodeIfFrameEmpty] asserts: no frame, or
    the iterator at or after [begin()] and before [end()]. *)
Definition cursor_inside {R : Type} (st : AudioOutput R) : Prop :=
  frame st = [] \/ 0 <= frame_iterator st < frame_end st.

(** Every frame the decoder yields holds at least one whole sample,
    unless it is empty. *)
Definition frames_hold_a_sample (d : AudioDecoder) : Prop :=
  forall i, frames d i <> [] ->
            bytes_per_sample d <= Z.of_nat (length (frames d i)).

(** Every frame the decoder yields is made of whole samples. *)
Definition frames_whole (d : AudioDecoder) : Prop :=
  forall i, Z.of_nat (length (frames d i)) mod bytes_per_sample d = 0.

(** What is left of the current frame is made of whole samples. *)
Definition frame_aligned {R : Type} (st : AudioOutput R) : Prop :=
  (frame_end st - frame_iterator st) mod bytes_per_sample (av st) = 0.

(** What spin-up relies on: a well-formed engine over a decoder of whole
    samples. *)
Definition spinup_ok {R : Type} (st : AudioOutput R) : Prop :=
  engine_ok st /\ frames_whole (av st) /\ frame_aligned st.

(* ------------------------------------------------------------------ *)
(** ** Quantities of one drain step *)

Section DrainQuantities.

Context {R : Type} `{RB : RingBuffer R}.

(** The count a drain step asks [Read] for. *)
Definition drain_request (frames_per_buf : Z) (in_ : PlayCallbackStepResult)
           (st : AudioOutput R) : Z :=
  Z.min (Z.min (ReadCapacity (ring_buf st)) (wrap64 (frames_per_buf - snd in_)))
        LONG_MAX.

(** The count [Read] reports for that request. *)
Definition drain_copied (frames_per_buf : Z) (in_ : PlayCallbackStepResult)
           (st : AudioOutput R) : Z :=
  snd (fst (Read (ring_buf st) (drain_request frames_per_buf in_ st))).

(** The bytes [Read] copies for that request. *)
Definition drain_data (frames_per_buf : Z) (in_ : PlayCallbackStepResult)
           (st : AudioOutput R) : list byte :=
  fst (fst (Read (ring_buf st) (drain_request frames_per_buf in_ st))).

End DrainQuantities.

(* ------------------------------------------------------------------ *)
(** ** Reachable engine states *)

Unset Implicit Arguments.

Section Reachability.

Context {R : Type} `{RB : RingBuffer R}.

(** The states an engine goes through: built by the constructor over a
    sound decoder, then driven by [Update] (returning or throwing), by
    seeks and by callback invocations. *)
Inductive reachable : AudioOutput R -> Prop :=
| reach_new (d : AudioDecoder) (new_ring : Z -> R) :
    decoder_ok d -> reachable (new_AudioOutput d new_ring)
| reach_Update (st st' : AudioOutput R) (more : bool) :
    reachable st -> Update st = Ok more st' -> reachable st'
| reach_Update_throw (st st' : AudioOutput R) (e : Error) :
    reachable st -> Update st = Throw e st' -> reachable st'
| reach_Seek (st : AudioOutput R) (t : Z) :
    reachable st -> reachable (SeekToPositionMicroseconds t st)
| reach_callback (st st' : AudioOutput R) (sched : list nat) (out n : Z)
                 (mem mem' : Memory) (result : PlayCallbackStepResult) :
    reachable st ->
    paCallbackFun sched out n mem st = Some (result, mem', st') ->
    reachable st'.

End Reachability.

(* ------------------------------------------------------------------ *)
(** ** A backend that moves one unit per call *)

Module OneAtATime.

(** A ring buffer that stores like [SpecRing] but whose [Read] and
    [Write] move at most one unit per call, whatever count they are asked
    for. *)
Record t : Type := mk { inner : SpecRing.t }.

Definition read (r : t) (count : Z) : (list byte * Z) * t :=
  let '(res, r') := SpecRing.read (inner r) (Z.min count 1) in
  (res, mk r').

Definition write (r : t) (src : list byte) (count : Z) : Z * t :=
  let '(w, r') := SpecRing.write (inner r) src (Z.min count 1) in (w, mk r').

End OneAtATime.

#[export] Instance OneAtATime_RingBuffer : RingBuffer OneAtATime.t := {
  WriteCapacity := fun r => SpecRing.write_capacity (OneAtATime.inner r);
  ReadCapacity := fun r => SpecRing.read_capacity (OneAtATime.inner r);
  Write := OneAtATime.write;
  Read := OneAtATime.read;
  Flush := fun r => OneAtATime.mk (SpecRing.flush (OneAtATime.inner r))
}.

(* ------------------------------------------------------------------ *)
(** ** Concrete engines *)

(** Memory before the driver hands out a buffer: every byte [0xff], so
    that silence written by the engine shows. *)
Definition blank : Memory := fun _ => Byte.xff.

(** The worked example of the design document: a ring buffer of 8
    samples, 2 bytes per sample, a decoder that yields one frame of 5
    samples and is then exhausted. *)
Module WorkedExample.

Import Byte.

Definition frame5 : list byte := [x01; x02; x03; x04; x05; x06; x07; x08; x09; x0a].

Definition decoder : AudioDecoder :=
  mkDecoder 2 (fun i => match i with O => frame5 | _ => [] end) 0
            (fun _ => O) (fun t => t / 1000) (fun n => n * 1000).

Definition new_ring (elem_size : Z) : SpecRing.t :=
  SpecRing.create (Z.to_nat elem_size) 8.

Definition engine0 : AudioOutput SpecRing.t := new_AudioOutput decoder new_ring.
(** After the first [Update]: 5 samples buffered, stream not ended. *)
Definition engine1 : AudioOutput SpecRing.t := after_Update engine0.
(** After the second [Update]: the decoder is exhausted. *)
Definition engine2 : AudioOutput SpecRing.t := after_Update engine1.

(** Address of the driver's buffer in the examples. *)
Definition out : Z := 4096.

(** The same decoder over a ring buffer of 3 samples, before and after
    the first [Update]. *)
Definition small0 : AudioOutput SpecRing.t :=
  new_AudioOutput decoder (fun e => SpecRing.create (Z.to_nat e) 3).
Definition small1 : AudioOutput SpecRing.t := after_Update small0.

(** The same decoder over the backend that moves one unit per call. *)
Definition slow0 : AudioOutput OneAtATime.t :=
  new_AudioOutput decoder
    (fun e => OneAtATime.mk (SpecRing.create (Z.to_nat e) 8)).

(** After a callback for 5 frames has drained the ring buffer. *)
Definition engine3 : AudioOutput SpecRing.t :=
  match paCallbackFun [] out 5 blank engine2 with
  | Some (_, _, st) => st
  | None => engine2
  end.

End WorkedExample.

(** Two frames of one sample each, so that the fill context can supply
    the second sample while a callback is under way. *)
Module TwoFrames.

Import Byte.

Definition decoder : AudioDecoder :=
  mkDecoder 2 (fun i => match i with
                        | O => [x01; x02]
                        | S O => [x03; x04]
                        | _ => []
                        end) 0
            (fun _ => O) (fun t => t / 1000) (fun n => n * 1000).

Definition engine0 : AudioOutput SpecRing.t :=
  new_AudioOutput decoder WorkedExample.new_ring.
(** One sample buffered, the second not yet decoded. *)
Definition engine1 : AudioOutput SpecRing.t := after_Update engine0.

(** The same decoder over a ring buffer of a single sample. *)
Definition tight0 : AudioOutput SpecRing.t :=
  new_AudioOutput decoder (fun e => SpecRing.create (Z.to_nat e) 1).
Definition tight1 : AudioOutput SpecRing.t := after_Update tight0.
Definition tight2 : AudioOutput SpecRing.t := after_Update tight1.

(** The same decoder over the backend that moves one unit per call, both
    samples buffered. *)
Definition slow0 : AudioOutput OneAtATime.t :=
  new_AudioOutput decoder
    (fun e => OneAtATime.mk (SpecRing.create (Z.to_nat e) 8)).
Definition slow2 : AudioOutput OneAtATime.t :=
  after_Update (after_Update slow0).

End TwoFrames.

(** A decoder whose only frame is one sample and a half: 3 bytes at 2
    bytes per sample. *)
Module OddFrame.

Import Byte.

Definition decoder : AudioDecoder :=
  mkDecoder 2 (fun i => match i with O => [x01; x02; x03] | _ => [] end) 0
            (fun _ => O) (fun t => t / 1000) (fun n => n * 1000).

Definition engine0 : AudioOutput SpecRing.t :=
  new_AudioOutput decoder WorkedExample.new_ring.

Definition RINGBUF_SIZE : Z := 8.
Definition SPINUP_SIZE : Z := 4.

End OddFrame.

(* ------------------------------------------------------------------ *)
(** ** cuppa/utils.h : SAFE_FREE *)

Module Cuppa.

(** The part of the C heap that [SAFE_FREE] touches.  Memory is counted
    in cells the size of a pointer: [cells] gives the pointer value held
    at each address; [live] lists the blocks handed out by the allocator
    and not freed yet, each as its first address and its number of
    cells; [freed] lists the blocks given back.  An address inside a
    block that was given back may neither be read nor written. *)
Record Heap : Type := mkHeap {
  cells : Z -> Z;
  live : list (Z * Z);
  freed : list (Z * Z)
}.

Definition NULL : Z := 0.

(** [a] lies in the block that starts at [fst blk] and has [snd blk]
    cells. *)
Definition inside (a : Z) (blk : Z * Z) : bool :=
  (fst blk <=? a) && (a <? fst blk + snd blk).

(** [a] is not in memory that was given back. *)
Definition accessible (h : Heap) (a : Z) : bool :=
  negb (existsb (inside a) (freed h)).

(** Reading the pointer at [a]; no defined behaviour ([None]) inside
    freed memory. *)
Definition load (h : Heap) (a : Z) : option Z :=
  if accessible h a then Some (cells h a) else None.

(** Writing the pointer at [a]; no defined behaviour inside freed
    memory. *)
Definition store (h : Heap) (a v : Z) : option Heap :=
  if accessible h a
  then Some (mkHeap (fun x => if x =? a then v else cells h x)
                    (live h) (freed h))
  else None.

(** [free(p)]: nothing for [NULL]; the live block that starts at [p] is
    given back; freeing anything else has no defined behaviour. *)
Definition free (p : Z) (h : Heap) : option Heap :=
  if p =? NULL then Some h
  else match find (fun blk => fst blk =? p) (live h) with
       | Some blk =>
           Some (mkHeap (cells h)
                        (filter (fun b => negb (fst b =? p)) (live h))
                        (blk :: freed h))
       | None => None
       end.

(** [SAFE_FREE(ptr)], [ptr] being the address of a pointer:
    [if (ptr != NULL) if ( *ptr != NULL) { free( *ptr); *ptr = NULL; }]. *)
Definition SAFE_FREE (ptr : Z) (h : Heap) : option Heap :=
  if negb (ptr =? NULL) then
    match load h ptr with
    | None => None
    | Some p =>
        if negb (p =? NULL) then
          match free p h with
          | Some h1 => store h1 ptr NULL
          | None => None
          end
        else Some h
    end
  else Some h.

(** A pointer variable at address 16 holding the live block of 8 cells
    at 4096, beside another live block at 8192. *)
Definition heap0 : Heap :=
  mkHeap (fun a => if a =? 16 then 4096 else 0) [(4096, 8); (8192, 8)] [].

(** A live block at 4096 whose first cell holds the address of the block
    itself. *)
Definition self_heap : Heap :=
  mkHeap (fun a => if a =? 4096 then 4096 else 0) [(4096, 8)] [].

End Cuppa.

(** What is left of the current frame, and every frame the decoder
    yields, holds at most [F] samples. *)
Definition frames_at_most {R : Type} (F : Z) (st : AudioOutput R) : Prop :=
  (frame_end st - frame_iterator st) / bytes_per_sample (av st) <= F
  /\ forall i,
       Z.of_nat (length (frames (av st) i)) / bytes_per_sample (av st) <= F.

(** A decoder whose only frame fills the whole ring buffer of the worked
    example: 8 samples of 2 bytes; spin-up threshold of one sample. *)
Module BigFrame.

Import Byte.

Definition frame8 : list byte :=
  [x01; x02; x03; x04; x05; x06; x07; x08;
   x09; x0a; x0b; x0c; x0d; x0e; x0f; x10].

Definition decoder : AudioDecoder :=
  mkDecoder 2 (fun i => match i with O => frame8 | _ => [] end) 0
            (fun _ => O) (fun t => t / 1000) (fun n => n * 1000).

Definition engine0 : AudioOutput SpecRing.t :=
  new_AudioOutput decoder WorkedExample.new_ring.

Definition RINGBUF_SIZE : Z := 8.
Definition SPINUP_SIZE : Z := 1.

End BigFrame.

(* ------------------------------------------------------------------ *)
(** ** The callback with the fill context running inside a step *)

Section RacingCallback.

Context {R : Type} `{RB : RingBuffer R}.

(** [PlayCallbackStep] reads [ReadCapacity()] first and only then, inside
    [PlayCallbackFailure] or [PlayCallbackSuccess], looks at [FileEnded()]
    or calls [Read].  Here the fill context completes [mid] calls of
    [Update] between the two. *)
Definition PlayCallbackStepRacing (mid : nat) (out : Z) (frames_per_buf : Z)
           (in_ : PlayCallbackStepResult) (mem : Memory) (st : AudioOutput R)
  : PlayCallbackStepResult * Memory * AudioOutput R :=
  let avail := ReadCapacity (ring_buf st) in
  let st_mid := fill_context_runs mid st in
  if avail =? 0
  then PlayCallbackFailure out avail frames_per_buf in_ mem st_mid
  else PlayCallbackSuccess out avail frames_per_buf in_ mem st_mid.

(** The loop of [paCallbackFun] under a schedule that gives, for each
    step, the number of [Update] calls completed before the step and the
    number completed inside it. *)
Fixpoint paCallbackLoopRacing (fuel : nat) (sched : list (nat * nat))
         (cout : Z) (frames_per_buf : Z)
         (result : PlayCallbackStepResult) (mem : Memory) (st : AudioOutput R)
  : option (PlayCallbackStepResult * Memory * AudioOutput R) :=
  if callback_continues frames_per_buf result then
    match fuel with
    | O => None
    | S fuel' =>
        let st1 := fill_context_runs (fst (hd (0%nat, 0%nat) sched)) st in
        let '(result', mem', st') :=
          PlayCallbackStepRacing (snd (hd (0%nat, 0%nat) sched))
                                 cout frames_per_buf result mem st1 in
        paCallbackLoopRacing fuel' (tl sched) cout frames_per_buf
                             result' mem' st'
    end
  else Some (result, mem, st).

Definition paCallbackFunRacing (sched : list (nat * nat)) (out : Z)
           (frames_per_buf : Z) (mem : Memory) (st : AudioOutput R)
  : option (PlayCallbackStepResult * Memory * AudioOutput R) :=
  let cout := out in
  paCallbackLoopRacing (Z.to_nat frames_per_buf) sched cout frames_per_buf
                       (paContinue, 0) mem st.

End RacingCallback.

(** Runs of the concrete engines that the examples refer to. *)
Module Runs.

(** The worked example over the backend that moves one unit per call,
    after its first [Update] (which throws). *)
Definition slow_thrown : AudioOutput OneAtATime.t :=
  after_Update WorkedExample.slow0.

(** Memory after a callback for 5 frames on the worked example. *)
Definition mem5 : Memory :=
  match paCallbackFun [] WorkedExample.out 5 blank WorkedExample.engine2 with
  | Some (_, m, _) => m
  | None => blank
  end.

End Runs.

(* ------------------------------------------------------------------ *)
(** ** The ring buffer of the design document keeps its contract *)

Lemma chunks_length (size n : nat) (src : list byte) :
  length (SpecRing.chunks size n src) = n.
Proof.
  revert src; induction n as [|n IH]; intros src; simpl; [reflexivity|].
  now rewrite IH.
Qed.

#[export] Instance SpecRing_RingBufferLaws : RingBufferLaws SpecRing.t.
Proof.
  constructor; simpl;
    unfold SpecRing.write_capacity, SpecRing.read_capacity,
           SpecRing.write, SpecRing.read, SpecRing.flush; simpl; intros.
  - lia.
  - lia.
  - lia.
  - lia.
  - rewrite length_app, chunks_length. lia.
  - lia.
  - rewrite length_skipn. lia.
  - reflexivity.
Qed.

(** The capacity invariant of the design document. *)
Lemma SpecRing_capacity_invariant (r : SpecRing.t) :
  (forall src n, 0 <= n ->
     let r' := snd (Write r src n) in
     ReadCapacity r' + WriteCapacity r' = ReadCapacity r + WriteCapacity r)
  /\ (forall n, 0 <= n ->
     let r' := snd (Read r n) in
     ReadCapacity r' + WriteCapacity r' = ReadCapacity r + WriteCapacity r)
  /\ ReadCapacity (Flush r) + WriteCapacity (Flush r)
     = ReadCapacity r + WriteCapacity r.
Proof.
  simpl; unfold SpecRing.write_capacity, SpecRing.read_capacity,
           SpecRing.write, SpecRing.read, SpecRing.flush; simpl.
  repeat split; intros.
  - rewrite length_app, chunks_length. lia.
  - rewrite length_skipn. lia.
  - lia.
Qed.

(* ------------------------------------------------------------------ *)
(** ** Invariants of the fill side *)

Lemma wrap64_small (z : Z) : 0 <= z < two64 -> wrap64 z = z.
Proof. intros; unfold wrap64; now apply Z.mod_small. Qed.


Section FillProperties.

Context {R : Type} `{RB : RingBuffer R}.

Abbreviation State := (AudioOutput R).

Lemma frame_empty_true (st : State) : frame_empty st = true <-> frame st = [].
Proof. unfold frame_empty; destruct (frame st); split; congruence. Qed.

Lemma frame_empty_false (st : State) :
  frame_empty st = false <-> frame st <> [].
Proof. unfold frame_empty; destruct (frame st); split; congruence. Qed.

Lemma frame_ok_finished (st : State) :
  frame_ok st -> (FrameFinished st = true <-> frame st = []).
Proof.
  unfold frame_ok, FrameFinished, frame_end.
  intros [[Hf Hi]|Hi]; split; intros H.
  - assumption.
  - rewrite Hf, Hi; reflexivity.
  - apply Z.leb_le in H; lia.
  - rewrite H in Hi; simpl in Hi; lia.
Qed.

Lemma DecodeIfFrameEmpty_eq (st : State) :
  frame_ok st ->
  DecodeIfFrameEmpty st = Ok (negb (frame_empty (fetched st))) (fetched st).
Proof.
  intros Hok.
  pose proof (frame_ok_finished st Hok) as Hfin.
  unfold DecodeIfFrameEmpty, fetched, bind, get, assert, modify, ret.
  destruct (FrameFinished st) eqn:E.
  - assert (Hf : frame_empty st = true)
      by (apply frame_empty_true, Hfin; reflexivity).
    rewrite Hf; simpl. destruct (Decode (av st)); reflexivity.
  - rewrite orb_true_r; reflexivity.
Qed.

Lemma fetched_engine_ok (st : State) : engine_ok st -> engine_ok (fetched st).
Proof.
  intros [[Hb Hl] [He Hok]].
  unfold fetched. destruct (FrameFinished st) eqn:E.
  - destruct st as [d r p f i e]; unfold engine_ok, decoder_ok, frame_ok,
      frame_end in *; simpl in *.
    repeat split; try assumption.
    + apply Hl.
    + destruct (frames d (next_frame d)) eqn:F; [left; now split|right].
      simpl; lia.
  - repeat split; assumption.
Qed.

Lemma fetched_nonempty_inside (st : State) :
  frame_ok st -> frame (fetched st) <> [] ->
  0 <= frame_iterator (fetched st) < frame_end (fetched st).
Proof.
  intros Hok Hne. unfold fetched in *.
  destruct (FrameFinished st) eqn:E.
  - destruct st as [d r p f i e]; unfold frame_end in *; simpl in *.
    destruct (frames d (next_frame d)); [congruence|simpl; lia].
  - destruct Hok as [[Hf _]|Hi]; [congruence|assumption].
Qed.

Lemma RingBufferTransferCount_eq (st : State) :
  frame_end st < two64 ->
  0 <= frame_iterator st < frame_end st ->
  RingBufferTransferCount st = Ok (transfer_count st) st.
Proof.
  intros He Hi.
  unfold RingBufferTransferCount, transfer_count, bind, get, assert, ret.
  assert (Hne : frame_empty st = false).
  { apply frame_empty_false. intros Hf. unfold frame_end in Hi.
    rewrite Hf in Hi; simpl in Hi; lia. }
  rewrite Hne; simpl.
  replace (0 <=? frame_end st - frame_iterator st) with true
    by (symmetry; apply Z.leb_le; lia).
  unfold SampleCountForByteCount, DecoderSampleCountForByteCount,
    RingBufferWriteCapacity.
  rewrite wrap64_small by lia. reflexivity.
Qed.

Lemma transfer_count_bytes (st : State) :
  0 < bytes_per_sample (av st) ->
  0 <= frame_iterator st < frame_end st ->
  forall n, 0 < n <= transfer_count st ->
  n <= n * bytes_per_sample (av st)
  /\ 0 < n * bytes_per_sample (av st) <= frame_end st - frame_iterator st.
Proof.
  intros Hb Hi n [Hn0 Hn]. unfold transfer_count in Hn.
  set (b := bytes_per_sample (av st)) in *.
  set (rem := frame_end st - frame_iterator st) in *.
  assert (H1 : n <= rem / b) by lia.
  assert (H2 : b * (rem / b) <= rem) by (apply Z.mul_div_le; lia).
  nia.
Qed.

Lemma AdvanceFrameIterator_eq (n : Z) (st : State) :
  0 < bytes_per_sample (av st) ->
  frame_end st < two64 ->
  0 <= frame_iterator st < frame_end st ->
  0 < n ->
  n * bytes_per_sample (av st) <= frame_end st - frame_iterator st ->
  AdvanceFrameIterator n st = Ok tt (advanced n st).
Proof.
  intros Hb He Hi Hn H3.
  assert (H1 : n <= n * bytes_per_sample (av st)) by nia.
  unfold AdvanceFrameIterator, advanced, bind, get, assert, modify, ret.
  unfold ByteCountForSampleCount, DecoderByteCountForSampleCount.
  rewrite wrap64_small by lia.
  replace (n <=? n * bytes_per_sample (av st)) with true
    by (symmetry; apply Z.leb_le; lia).
  replace (0 <? n * bytes_per_sample (av st)) with true
    by (symmetry; apply Z.ltb_lt; lia).
  destruct st as [d r p f i e]; unfold frame_end, FrameFinished in *;
    simpl in *.
  unfold FrameFinished, frame_end; simpl.
  destruct (Z.of_nat (length f) <=? i + n * bytes_per_sample d) eqn:E.
  - unfold FrameFinished, frame_end; simpl. reflexivity.
  - unfold frame_empty; simpl.
    apply Z.leb_gt in E.
    replace (0 <? i + n * bytes_per_sample d) with true
      by (symmetry; apply Z.ltb_lt; lia).
    replace (i + n * bytes_per_sample d <? Z.of_nat (length f)) with true
      by (symmetry; apply Z.ltb_lt; lia).
    rewrite orb_true_r. reflexivity.
Qed.

Lemma WriteToRingBuffer_eq (n : Z) (st : State) :
  0 < bytes_per_sample (av st) ->
  frame_end st < two64 ->
  0 <= frame_iterator st < frame_end st ->
  0 < n <= transfer_count st ->
  WriteToRingBuffer n st =
  let w := Write (ring_buf st) (write_source st) n in
  if fst w =? n
  then Ok tt (advanced n (set_ring_buf (snd w) st))
  else Throw (InternalError MSG_OUTPUT_RINGWRITE) (set_ring_buf (snd w) st).
Proof.
  intros Hb He Hi Hn.
  destruct (transfer_count_bytes st Hb Hi n Hn) as [H1 [H2 H3]].
  unfold WriteToRingBuffer, write_source, bind, get, assert, modify,
    throw, ret.
  replace (0 <? n) with true by (symmetry; apply Z.ltb_lt; lia).
  destruct (Write (ring_buf st) (skipn (Z.to_nat (frame_iterator st)) (frame st)) n)
    as [w r'] eqn:W; simpl.
  destruct (w =? n) eqn:E; simpl; [|reflexivity].
  apply Z.eqb_eq in E; subst w.
  replace (0 <? n) with true by (symmetry; apply Z.ltb_lt; lia).
  apply AdvanceFrameIterator_eq; destruct st; simpl in *; try assumption; lia.
Qed.

(** [Update], case by case, on a well-formed engine. *)
Lemma Update_eq (st : State) :
  engine_ok st ->
  Update st =
  let st1 := fetched st in
  if frame_empty st1 then Ok false (set_file_ended true st1)
  else
    let n := transfer_count st1 in
    if 0 <? n then
      let w := Write (ring_buf st1) (write_source st1) n in
      if fst w =? n
      then Ok true (set_file_ended false (advanced n (set_ring_buf (snd w) st1)))
      else Throw (InternalError MSG_OUTPUT_RINGWRITE)
                 (set_ring_buf (snd w) st1)
    else Ok true (set_file_ended false st1).
Proof.
  intros Hok.
  pose proof (fetched_engine_ok st Hok) as [[Hb Hl] [He Hf]].
  destruct Hok as [_ [_ Hok]].
  unfold Update, bind. rewrite (DecodeIfFrameEmpty_eq st Hok).
  cbv zeta.
  destruct (frame_empty (fetched st)) eqn:E; simpl; [reflexivity|].
  rewrite E; simpl.
  assert (Hi : 0 <= frame_iterator (fetched st) < frame_end (fetched st))
    by (apply fetched_nonempty_inside;
        [assumption | now apply frame_empty_false]).
  unfold WriteAllAvailableToRingBuffer, bind.
  rewrite (RingBufferTransferCount_eq _ He Hi).
  destruct (0 <? transfer_count (fetched st)) eqn:C; [|reflexivity].
  apply Z.ltb_lt in C.
  rewrite WriteToRingBuffer_eq by (try assumption; lia).
  cbv zeta.

  destruct (fst (Write (ring_buf (fetched st)) (write_source (fetched st))
                       (transfer_count (fetched st)))
            =? transfer_count (fetched st)); reflexivity.
Qed.

Lemma engine_ok_ext (st st' : State) :
  av st' = av st -> frame st' = frame st ->
  frame_iterator st' = frame_iterator st ->
  engine_ok st -> engine_ok st'.
Proof.
  unfold engine_ok, frame_ok, frame_end. intros -> -> ->. tauto.
Qed.

Lemma advanced_engine_ok (n : Z) (st : State) :
  0 <= n * bytes_per_sample (av st) ->
  engine_ok st -> engine_ok (advanced n st).
Proof.
  intros Hn [Hd [He Hf]]. unfold advanced.
  destruct (frame_end st <=? frame_iterator st + n * bytes_per_sample (av st))
    eqn:E.
  - destruct st; unfold engine_ok, frame_ok, frame_end in *; simpl in *.
    repeat split; try apply Hd; try tauto; try reflexivity;
      try (left; split; reflexivity).
  - apply Z.leb_gt in E.
    destruct st as [d r p f i e]; unfold engine_ok, frame_ok, frame_end in *;
      simpl in *.
    repeat split; try apply Hd; try tauto.
    right. destruct Hf as [[Hf Hi]|Hi]; [subst; simpl in *|]; lia.
Qed.

(** [Update] keeps the engine well formed, whether it returns or throws,
    and no assertion of the fill side fails. *)
Lemma Update_engine_ok (st : State) :
  engine_ok st ->
  match Update st with
  | Ok _ st' => engine_ok st'
  | Throw _ st' => engine_ok st'
  | Abort => False
  end.
Proof.
  intros Hok. rewrite (Update_eq st Hok). cbv zeta.
  pose proof (fetched_engine_ok st Hok) as H1.
  destruct (frame_empty (fetched st)).
  - revert H1; apply engine_ok_ext; reflexivity.
  - destruct (0 <? transfer_count (fetched st)) eqn:C.
    + apply Z.ltb_lt in C.
      match goal with |- context [fst ?w =? ?n] => destruct (fst w =? n) end.
      * assert (H2 : engine_ok
                       (advanced (transfer_count (fetched st))
                          (set_ring_buf
                             (snd (Write (ring_buf (fetched st))
                                         (write_source (fetched st))
                                         (transfer_count (fetched st))))
                             (fetched st)))).
        { apply advanced_engine_ok.
          - destruct H1 as [[Hb _] _]. simpl. nia.
          - revert H1; apply engine_ok_ext; reflexivity. }
        revert H2; apply engine_ok_ext; reflexivity.
      * revert H1; apply engine_ok_ext; reflexivity.
    + revert H1; apply engine_ok_ext; reflexivity.
Qed.

Lemma after_Update_engine_ok (st : State) :
  engine_ok st -> engine_ok (after_Update st).
Proof.
  intros Hok. pose proof (Update_engine_ok st Hok) as H.
  unfold after_Update. destruct (Update st); tauto.
Qed.

Lemma fill_context_runs_engine_ok (n : nat) (st : State) :
  engine_ok st -> engine_ok (fill_context_runs n st).
Proof.
  intros Hok. unfold fill_context_runs.
  induction n as [|n IH]; simpl; [assumption|].
  now apply after_Update_engine_ok.
Qed.

Lemma PlayCallbackStep_fill_fields (out n : Z) (in_ : PlayCallbackStepResult)
      (mem : Memory) (st : State) :
  let st' := snd (PlayCallbackStep out n in_ mem st) in
  av st' = av st /\ frame st' = frame st
  /\ frame_iterator st' = frame_iterator st /\ file_ended st' = file_ended st.
Proof.
  unfold PlayCallbackStep, PlayCallbackFailure, PlayCallbackSuccess,
    ReadSamplesToOutput.
  destruct (ReadCapacity (ring_buf st) =? 0).
  - destruct (FileEnded st); simpl; tauto.
  - match goal with |- context [Read ?r ?k] =>
      destruct (Read r k) as [[data cnt] r'] end.
    simpl; tauto.
Qed.

Lemma paCallbackLoop_engine_ok (fuel : nat) :
  forall (sched : list nat) (cout n : Z) (result : PlayCallbackStepResult)
         (mem : Memory) (st : State) res,
    engine_ok st ->
    paCallbackLoop fuel sched cout n result mem st = Some res ->
    engine_ok (snd res).
Proof.
  induction fuel as [|fuel IH]; intros sched cout n result mem st res Hok;
    simpl; destruct (callback_continues n result);
    try (intros [= <-]; exact Hok); try discriminate.
  pose proof (PlayCallbackStep_fill_fields cout n result mem
                (fill_context_runs (hd 0%nat sched) st)) as Hs.
  destruct (PlayCallbackStep cout n result mem
              (fill_context_runs (hd 0%nat sched) st)) as [[r' m'] s'].
  simpl in Hs. intros H. apply IH in H; [assumption|].
  destruct Hs as [Ha [Hf [Hi _]]].
  apply (engine_ok_ext (fill_context_runs (hd 0%nat sched) st)); try assumption.
  now apply fill_context_runs_engine_ok.
Qed.

Lemma ClearFrame_engine_ok (st : State) :
  decoder_ok (av st) -> engine_ok (ClearFrame st).
Proof.
  intros Hd. destruct st; unfold engine_ok, frame_ok, frame_end; simpl in *.
  repeat split; try apply Hd; try tauto; try reflexivity;
    try (left; split; reflexivity).
Qed.

(** Every reachable state is well formed. *)
Lemma reachable_engine_ok (st : State) : reachable st -> engine_ok st.
Proof.
  induction 1 as [d nr Hd | st st' more _ IH HU | st st' e _ IH HU
                 | st t _ IH | st st' sched out n mem mem' result _ IH HC].
  - unfold new_AudioOutput. now apply ClearFrame_engine_ok.
  - pose proof (Update_engine_ok st IH) as H. now rewrite HU in H.
  - pose proof (Update_engine_ok st IH) as H. now rewrite HU in H.
  - unfold SeekToPositionMicroseconds. cbv zeta.
    match goal with |- engine_ok (set_ring_buf ?r (ClearFrame ?s)) =>
      apply (engine_ok_ext (ClearFrame s)); try reflexivity;
      apply ClearFrame_engine_ok end.
    destruct IH as [Hd _]. destruct st; exact Hd.
  - unfold paCallbackFun in HC.
    apply (paCallbackLoop_engine_ok _ _ _ _ _ _ _ _ IH HC).
Qed.

End FillProperties.

(* ------------------------------------------------------------------ *)
(** ** The concrete engines are sound *)

Lemma WorkedExample_decoder_ok : decoder_ok WorkedExample.decoder.
Proof.
  split; [reflexivity|]. intros [|i]; simpl; reflexivity.
Qed.

Lemma TwoFrames_decoder_ok : decoder_ok TwoFrames.decoder.
Proof.
  split; [reflexivity|]. intros [|[|i]]; simpl; reflexivity.
Qed.

Lemma OddFrame_decoder_ok : decoder_ok OddFrame.decoder.
Proof.
  split; [reflexivity|]. intros [|i]; simpl; reflexivity.
Qed.

Lemma WorkedExample_engine0_reachable : reachable WorkedExample.engine0.
Proof. apply reach_new, WorkedExample_decoder_ok. Qed.

Lemma WorkedExample_engine1_reachable : reachable WorkedExample.engine1.
Proof.
  apply (reach_Update WorkedExample.engine0 WorkedExample.engine1 true).
  - apply WorkedExample_engine0_reachable.
  - vm_compute; reflexivity.
Qed.

Lemma WorkedExample_engine2_reachable : reachable WorkedExample.engine2.
Proof.
  apply (reach_Update WorkedExample.engine1 WorkedExample.engine2 false).
  - apply WorkedExample_engine1_reachable.
  - vm_compute; reflexivity.
Qed.

Lemma TwoFrames_tight1_reachable : reachable TwoFrames.tight1.
Proof.
  apply (reach_Update TwoFrames.tight0 TwoFrames.tight1 true).
  - apply reach_new, TwoFrames_decoder_ok.
  - vm_compute; reflexivity.
Qed.

(* ------------------------------------------------------------------ *)
(** ** Properties of the fill side *)

Section FillClaims.

Context {R : Type} `{RB : RingBuffer R}.

Abbreviation State := (AudioOutput R).

Lemma advanced_cursor_strictly_inside (n : Z) (st : State) :
  0 < n * bytes_per_sample (av st) ->
  frame_ok st -> cursor_strictly_inside (advanced n st).
Proof.
  intros Hn Hf. unfold advanced, cursor_strictly_inside.
  destruct (frame_end st <=? frame_iterator st + n * bytes_per_sample (av st))
    eqn:E.
  - left. destruct st; reflexivity.
  - apply Z.leb_gt in E. right.
    destruct st as [d r p f i e]; unfold frame_ok, frame_end in *; simpl in *.
    destruct Hf as [[Hf Hi]|Hi]; [subst; simpl in *|]; lia.
Qed.

(** C4, as amended.  After an [Update] that returns, from any reachable
    state, the frame is empty or its iterator is at or after the start of
    the frame and strictly before its end; the iterator is strictly after
    the start whenever that [Update] had a positive count to write. *)
Theorem Update_keeps_cursor_inside (st st' : State) (more : bool) :
  reachable st ->
  Update st = Ok more st' ->
  cursor_inside st'
  /\ (0 < transfer_count (fetched st) -> cursor_strictly_inside st').
Proof.
  intros Hr HU.
  pose proof (reachable_engine_ok st Hr) as Hok.
  split.
  - pose proof (Update_engine_ok st Hok) as H. rewrite HU in H.
    destruct H as [_ [_ [[Hf _]|Hi]]]; [now left|now right].
  - intros Hn. rewrite (Update_eq st Hok) in HU. cbv zeta in HU.
    pose proof (fetched_engine_ok st Hok) as [[Hb _] [_ Hf]].
    destruct (frame_empty (fetched st)) eqn:E.
    + injection HU as _ <-. left. now apply frame_empty_true in E.
    + replace (0 <? transfer_count (fetched st)) with true in HU
        by (symmetry; apply Z.ltb_lt; lia).
      match type of HU with context [fst ?w =? ?n] =>
        destruct (fst w =? n); [|discriminate] end.
      injection HU as _ <-.
      match goal with |- cursor_strictly_inside (set_file_ended _ ?s) =>
        assert (H : cursor_strictly_inside s) end.
      { apply advanced_cursor_strictly_inside; [simpl; nia|exact Hf]. }
      exact H.
Qed.

(** C5.  On a well-formed engine [Update] throws exactly when a write is
    attempted (a frame is at hand and the count, the smaller of what the
    frame holds and what the ring buffer can take, is positive) and
    [Write] reports another count than the one asked for; the error is
    the internal ring-write error.  When [Write] reports the count asked
    for, [Update] returns [true] and the iterator has moved over the
    bytes of that many samples, the frame being dropped if that reaches
    its end. *)
Theorem Update_throws_iff_short_write (st : State) :
  engine_ok st ->
  let st1 := fetched st in
  let n := transfer_count st1 in
  let written := fst (Write (ring_buf st1) (write_source st1) n) in
  ((exists e s, Update st = Throw e s)
   <-> (frame st1 <> [] /\ 0 < n <= WriteCapacity (ring_buf st1)
        /\ written <> n))
  /\ (forall e s, Update st = Throw e s ->
                  e = InternalError MSG_OUTPUT_RINGWRITE)
  /\ (frame st1 <> [] -> 0 < n -> written = n ->
      exists st', Update st = Ok true st'
        /\ let moved := frame_iterator st1 + ByteCountForSampleCount st1 n in
           if frame_end st1 <=? moved
           then frame st' = [] /\ frame_iterator st' = 0
           else frame st' = frame st1 /\ frame_iterator st' = moved).
Proof.
  intros Hok st1 n written.
  pose proof (Update_eq st Hok) as HU. cbv zeta in HU.
  fold st1 in HU. fold n in HU. fold written in HU.
  pose proof (fetched_engine_ok st Hok) as [[Hb _] [He Hf]]. fold st1 in Hb, He, Hf.
  assert (Hcap : n <= WriteCapacity (ring_buf st1))
    by (unfold n, transfer_count; lia).
  destruct (frame_empty st1) eqn:E.
  - apply frame_empty_true in E.
    split; [split|split].
    + intros [e [s HT]]; congruence.
    + intros [HT _]; congruence.
    + intros e s HT; congruence.
    + intros HT; congruence.
  - apply frame_empty_false in E.
    destruct (0 <? n) eqn:C.
    + apply Z.ltb_lt in C.
      destruct (written =? n) eqn:W.
      * apply Z.eqb_eq in W. split; [split|split].
        -- intros [e [s HT]]; congruence.
        -- intros [_ [_ HT]]; congruence.
        -- intros e s HT; congruence.
        -- intros _ _ _. eexists; split; [exact HU|].
           assert (Hi : 0 <= frame_iterator st1 < frame_end st1).
           { destruct Hf as [[Hf' _]|Hi]; [congruence|assumption]. }
           destruct (transfer_count_bytes st1 Hb Hi n (conj C (Z.le_refl _)))
             as [_ [_ Hle]].
           unfold ByteCountForSampleCount, DecoderByteCountForSampleCount.
           rewrite wrap64_small by lia. cbv zeta.
           unfold advanced. simpl.
           change (frame_end (set_ring_buf
                                (snd (Write (ring_buf st1) (write_source st1) n))
                                st1))
             with (frame_end st1).
           destruct (frame_end st1 <=? frame_iterator st1
                                       + n * bytes_per_sample (av st1));
             destruct st1; simpl; split; reflexivity.
      * apply Z.eqb_neq in W. split; [split|split].
        -- intros _. repeat split; try assumption; lia.
        -- intros _. eauto.
        -- intros e s HT. rewrite HU in HT. congruence.
        -- intros _ _ HT; congruence.
    + apply Z.ltb_ge in C. split; [split|split].
      * intros [e [s HT]]; congruence.
      * intros [_ [HT _]]; lia.
      * intros e s HT; congruence.
      * intros _ HT; lia.
Qed.

(** C6.  A seek followed at once by a position query yields the decoder's
    time for the sample count it gives for the target time; after the
    seek the ring buffer has nothing to read, there is no frame, and the
    stream is not marked as ended. *)
Theorem Seek_then_CurrentPosition {RL : RingBufferLaws R} (t : Z) (st : State) :
  let st' := SeekToPositionMicroseconds t st in
  CurrentPositionMicroseconds st'
  = PositionMicrosecondsForSampleCount (av st')
      (SampleCountForPositionMicroseconds (av st') t)
  /\ position_sample_count st'
     = SampleCountForPositionMicroseconds (av st') t
  /\ ReadCapacity (ring_buf st') = 0
  /\ frame st' = [] /\ frame_empty st' = true
  /\ FileEnded st' = false.
Proof.
  cbv zeta. unfold SeekToPositionMicroseconds, CurrentPositionMicroseconds.
  cbv zeta. simpl. repeat split.
  apply Flush_ReadCapacity.
Qed.

(** C7.  On a well-formed engine over a ring buffer that keeps its
    contract: when the frame is finished and the decoder's fetch yields an
    empty frame, [Update] returns [false] and leaves the stream marked as
    ended; when a frame is at hand after the conditional fetch, [Update]
    returns [true] (and leaves the stream marked as not ended). *)
Theorem Update_reports_exhaustion {RL : RingBufferLaws R} (st : State) :
  engine_ok st ->
  (FrameFinished st = true -> fst (Decode (av st)) = [] ->
   exists st', Update st = Ok false st' /\ FileEnded st' = true)
  /\ (frame (fetched st) <> [] ->
      exists st', Update st = Ok true st' /\ FileEnded st' = false).
Proof.
  intros Hok. rewrite (Update_eq st Hok). cbv zeta. split.
  - intros Hfin Hd.
    assert (E : frame_empty (fetched st) = true).
    { apply frame_empty_true. unfold fetched. rewrite Hfin.
      destruct st; simpl in *. exact Hd. }
    rewrite E. eexists; split; reflexivity.
  - intros Hne. apply frame_empty_false in Hne. rewrite Hne.
    destruct (0 <? transfer_count (fetched st)) eqn:C.
    + apply Z.ltb_lt in C.
      rewrite Write_full by (unfold transfer_count in *; lia).
      rewrite Z.eqb_refl. eexists; split; reflexivity.
    + eexists; split; reflexivity.
Qed.

(** C10.  With no frame at hand and a decoder that yields an empty frame,
    [Update] returns [false], marks the stream as ended and leaves the
    ring buffer (hence its capacities), the frame, its iterator and the
    play position as they were; a further [Update] against a decoder that
    again yields an empty frame changes none of these, the flag
    included. *)
Theorem Update_after_exhaustion (st : State) :
  frame st = [] -> frame_iterator st = 0 ->
  fst (Decode (av st)) = [] ->
  exists st',
    Update st = Ok false st'
    /\ ring_buf st' = ring_buf st
    /\ ReadCapacity (ring_buf st') = ReadCapacity (ring_buf st)
    /\ WriteCapacity (ring_buf st') = WriteCapacity (ring_buf st)
    /\ frame st' = frame st
    /\ frame_iterator st' = frame_iterator st
    /\ position_sample_count st' = position_sample_count st
    /\ file_ended st' = true
    /\ (fst (Decode (av st')) = [] ->
        exists st'',
          Update st' = Ok false st''
          /\ ring_buf st'' = ring_buf st'
          /\ frame st'' = frame st'
          /\ frame_iterator st'' = frame_iterator st'
          /\ position_sample_count st'' = position_sample_count st'
          /\ file_ended st'' = file_ended st').
Proof.
  intros Hf Hi Hd.
  assert (Hstep : forall s : State,
             frame s = [] -> frame_iterator s = 0 ->
             fst (Decode (av s)) = [] ->
             Update s = Ok false
                          (mkAudioOutput (snd (Decode (av s))) (ring_buf s)
                             (position_sample_count s) [] 0 true)).
  { intros [d r p f i e] Hf' Hi' Hd'. simpl in *. subst f i.
    unfold Update, DecodeIfFrameEmpty, bind, get, assert, modify, ret,
      FrameFinished, frame_end, frame_empty; simpl.
    rewrite Hd'. simpl. reflexivity. }
  eexists. split; [apply Hstep; assumption|].
  simpl. rewrite Hf, Hi. repeat split.
  intros Hd2. eexists. split; [apply Hstep; simpl; trivial|].
  simpl. repeat split.
Qed.

End FillClaims.

(* ------------------------------------------------------------------ *)
(** ** Properties of the drain side *)

Section DrainClaims.

Context {R : Type} `{RB : RingBuffer R}.

Abbreviation State := (AudioOutput R).

Lemma PlayCallbackStep_drain (out n : Z) (in_ : PlayCallbackStepResult)
      (mem : Memory) (st : State) :
  ReadCapacity (ring_buf st) <> 0 ->
  PlayCallbackStep out n in_ mem st =
  ((paContinue, wrap64 (snd in_ + drain_request n in_ st)),
   store mem out (drain_data n in_ st),
   set_position_sample_count
     (wrap64 (position_sample_count st + drain_request n in_ st))
     (set_ring_buf (snd (Read (ring_buf st) (drain_request n in_ st))) st)).
Proof.
  intros Hne. apply Z.eqb_neq in Hne.
  unfold PlayCallbackStep, PlayCallbackSuccess, ReadSamplesToOutput.
  rewrite Hne. unfold drain_data, drain_request.
  destruct (Read (ring_buf st)
              (Z.min (Z.min (ReadCapacity (ring_buf st)) (wrap64 (n - snd in_)))
                     LONG_MAX)) as [[data cnt] r'].
  reflexivity.
Qed.

Lemma PlayCallbackStep_underrun (out n : Z) (in_ : PlayCallbackStepResult)
      (mem : Memory) (st : State) :
  ReadCapacity (ring_buf st) = 0 ->
  PlayCallbackStep out n in_ mem st =
  if FileEnded st
  then ((paComplete, snd in_), mem, st)
  else ((paContinue, n),
        memset mem out Byte.x00 (ByteCountForSampleCount st n), st).
Proof.
  intros He. unfold PlayCallbackStep, PlayCallbackFailure.
  rewrite He. reflexivity.
Qed.




(** A step taken with nothing to read and the stream ended is the last:
    the loop stops with "complete", the count as it was, memory and
    engine untouched. *)
Lemma paCallbackLoop_complete (fuel : nat) (sched : list nat) (cout n k : Z)
      (mem : Memory) (st : State) :
  let st1 := fill_context_runs (hd 0%nat sched) st in
  k < n ->
  ReadCapacity (ring_buf st1) = 0 ->
  FileEnded st1 = true ->
  paCallbackLoop (S fuel) sched cout n (paContinue, k) mem st
  = Some ((paComplete, k), mem, st1).
Proof.
  intros st1 Hk Hr He. simpl.
  unfold callback_continues at 1. simpl.
  replace (k <? n) with true by (symmetry; apply Z.ltb_lt; lia).
  fold st1. rewrite (PlayCallbackStep_underrun cout n (paContinue, k) mem st1 Hr).
  rewrite He. destruct fuel; reflexivity.
Qed.

End DrainClaims.

(** C8.  Whenever the callback's loop takes a step with nothing to read
    and the stream ended, the invocation ends there with "complete": the
    count supplied stays what it was, no byte of memory is written and
    the engine is unchanged.  On the worked example (ring buffer of 8
    samples, 2 bytes per sample, one frame of 5 samples, then
    exhaustion) the two [Update] calls return [true] then [false], and a
    callback for 6 frames returns "complete" with 5 supplied: the 10
    bytes of the frame are in the buffer and its last 2 bytes are as
    they were. *)
Theorem callback_complete_when_drained_and_ended :
  (forall (R : Type) (RB : RingBuffer R) (fuel : nat) (sched : list nat)
          (cout n k : Z) (mem : Memory) (st : AudioOutput R),
      let st1 := fill_context_runs (hd 0%nat sched) st in
      k < n ->
      ReadCapacity (ring_buf st1) = 0 ->
      FileEnded st1 = true ->
      paCallbackLoop (S fuel) sched cout n (paContinue, k) mem st
      = Some ((paComplete, k), mem, st1))
  /\ Update WorkedExample.engine0 = Ok true WorkedExample.engine1
  /\ Update WorkedExample.engine1 = Ok false WorkedExample.engine2
  /\ FileEnded WorkedExample.engine2 = true
  /\ match paCallbackFun [] WorkedExample.out 6 blank WorkedExample.engine2 with
     | Some (result, mem', st') =>
         result = (paComplete, 5)
         /\ load mem' WorkedExample.out 12
            = WorkedExample.frame5 ++ [Byte.xff; Byte.xff]
         /\ position_sample_count st' = 5
         /\ ReadCapacity (ring_buf st') = 0
     | None => False
     end.
Proof.
  split.
  - intros R RB fuel sched cout n k mem st. apply paCallbackLoop_complete.
  - vm_compute. repeat split; reflexivity.
Qed.

(** C1, what the code does.  One sample is buffered, the callback is
    asked for 2 frames, and the fill context supplies the second sample
    between the two drain steps.  Both steps copy to the start of the
    buffer: after the first the buffer starts with sample 1, after the
    second sample 2 has taken its place and the second slot was never
    written, although 2 samples count as supplied. *)
Theorem callback_drain_steps_share_one_slot :
  ReadCapacity (ring_buf TwoFrames.engine1) = 1
  /\ (let '(result, mem', _) :=
        PlayCallbackStep WorkedExample.out 2 (paContinue, 0) blank
                         TwoFrames.engine1 in
      result = (paContinue, 1)
      /\ load mem' WorkedExample.out 4
         = [Byte.x01; Byte.x02; Byte.xff; Byte.xff])
  /\ match paCallbackFun [0%nat; 1%nat] WorkedExample.out 2 blank
                         TwoFrames.engine1 with
     | Some (result, mem', st') =>
         result = (paContinue, 2)
         /\ load mem' WorkedExample.out 4
            = [Byte.x03; Byte.x04; Byte.xff; Byte.xff]
         /\ load mem' WorkedExample.out 4
            <> [Byte.x01; Byte.x02; Byte.x03; Byte.x04]
         /\ position_sample_count st' = 2
     | None => False
     end.
Proof.
  vm_compute. repeat split; try reflexivity. discriminate.
Qed.

(** C2, what the code does.  On the worked example after the first
    [Update] (5 samples buffered, stream not ended) a callback for 6
    frames drains the 5 samples, then meets the underrun: it returns
    "continue" with 6 supplied, and all 12 bytes of the buffer are zero,
    the 10 bytes just drained included. *)
Theorem callback_underrun_silences_whole_buffer :
  ReadCapacity (ring_buf WorkedExample.engine1) = 5
  /\ FileEnded WorkedExample.engine1 = false
  /\ (let '(result, mem', _) :=
        PlayCallbackStep WorkedExample.out 6 (paContinue, 0) blank
                         WorkedExample.engine1 in
      result = (paContinue, 5)
      /\ load mem' WorkedExample.out 12
         = WorkedExample.frame5 ++ [Byte.xff; Byte.xff])
  /\ match paCallbackFun [] WorkedExample.out 6 blank
                         WorkedExample.engine1 with
     | Some (result, mem', st') =>
         result = (paContinue, 6)
         /\ load mem' WorkedExample.out 12 = repeat Byte.x00 12
         /\ load mem' WorkedExample.out 12
            <> WorkedExample.frame5 ++ [Byte.x00; Byte.x00]
         /\ position_sample_count st' = 5
         /\ ReadCapacity (ring_buf st') = 0
     | None => False
     end.
Proof.
  vm_compute. repeat split; try reflexivity. discriminate.
Qed.

(** Outside the contract.  The backend that moves one unit per call
    breaks [Read_full]: with 2 samples buffered and 2 frames wanted, the
    drain step asks for 2 and [Read] copies 1.  The play position is
    computed from the count asked for and moves by 2; only the local
    output pointer follows what [Read] returns. *)
Example drain_step_over_short_reading_backend :
  ReadCapacity (ring_buf TwoFrames.slow2) = 2
  /\ drain_copied 2 (paContinue, 0) TwoFrames.slow2 = 1
  /\ position_sample_count TwoFrames.slow2 = 0
  /\ position_sample_count
       (snd (PlayCallbackStep WorkedExample.out 2 (paContinue, 0) blank
                              TwoFrames.slow2)) = 2
  /\ position_sample_count
       (snd (PlayCallbackStep WorkedExample.out 2 (paContinue, 0) blank
                              TwoFrames.slow2))
     <> wrap64 (position_sample_count TwoFrames.slow2
                + drain_copied 2 (paContinue, 0) TwoFrames.slow2).
Proof.
  vm_compute. repeat split; try reflexivity. discriminate.
Qed.

(** C4 fails as stated: with the ring buffer full, [Update] fetches a
    frame and cannot write any of it; the frame is not empty and its
    iterator is at its start. *)
Lemma Update_cursor_at_start_counterexample :
  reachable TwoFrames.tight1
  /\ Update TwoFrames.tight1 = Ok true TwoFrames.tight2
  /\ frame TwoFrames.tight2 = [Byte.x03; Byte.x04]
  /\ frame_iterator TwoFrames.tight2 = 0
  /\ ~ cursor_strictly_inside TwoFrames.tight2.
Proof.
  split; [apply TwoFrames_tight1_reachable|].
  split; [vm_compute; reflexivity|].
  split; [vm_compute; reflexivity|].
  split; [vm_compute; reflexivity|].
  unfold cursor_strictly_inside.
  replace (frame TwoFrames.tight2) with [Byte.x03; Byte.x04]
    by (vm_compute; reflexivity).
  replace (frame_iterator TwoFrames.tight2) with 0 by (vm_compute; reflexivity).
  intros [H|H]; [discriminate|lia].
Qed.

(* ------------------------------------------------------------------ *)
(** ** Spin-up *)

Section SpinupClaims.

Context {R : Type} `{RB : RingBuffer R}.

Abbreviation State := (AudioOutput R).

Lemma fetched_fields (st : State) :
  bytes_per_sample (av (fetched st)) = bytes_per_sample (av st)
  /\ frames (av (fetched st)) = frames (av st)
  /\ ring_buf (fetched st) = ring_buf st.
Proof.
  unfold fetched. destruct (FrameFinished st); destruct st; simpl; tauto.
Qed.

Lemma advanced_fields (n : Z) (st : State) :
  av (advanced n st) = av st /\ ring_buf (advanced n st) = ring_buf st.
Proof.
  unfold advanced.
  destruct (frame_end st <=? frame_iterator st + n * bytes_per_sample (av st));
    destruct st; simpl; tauto.
Qed.

Lemma fetched_frame_aligned (st : State) :
  frames_whole (av st) -> frame_aligned st -> frame_aligned (fetched st).
Proof.
  intros Hw Ha. unfold fetched. destruct (FrameFinished st); [|exact Ha].
  destruct st as [d r p f i e]; unfold frame_aligned, frame_end in *;
    simpl in *.
  rewrite Z.sub_0_r. apply Hw.
Qed.

Lemma advanced_frame_aligned (n : Z) (st : State) :
  0 < bytes_per_sample (av st) ->
  frame_aligned st -> frame_aligned (advanced n st).
Proof.
  intros Hb Ha. unfold advanced.
  destruct (frame_end st <=? frame_iterator st + n * bytes_per_sample (av st)).
  - destruct st; unfold frame_aligned, frame_end; simpl.
    apply Z.mod_0_l. simpl in Hb. lia.
  - destruct st as [d r p f i e]; unfold frame_aligned, frame_end in *;
      simpl in *.
    replace (Z.of_nat (length f) - (i + n * bytes_per_sample d))
      with (Z.of_nat (length f) - i + (- n) * bytes_per_sample d) by ring.
    rewrite Z.mod_add by lia. exact Ha.
Qed.

Lemma spinup_ok_ext (st st' : State) :
  av st' = av st -> frame st' = frame st ->
  frame_iterator st' = frame_iterator st ->
  spinup_ok st -> spinup_ok st'.
Proof.
  intros Ha Hf Hi [Hok [Hw Hal]]. split; [|split].
  - now apply (engine_ok_ext st).
  - now rewrite Ha.
  - unfold frame_aligned, frame_end in *. now rewrite Ha, Hf, Hi.
Qed.

(** One [Update] during spin-up: it returns, keeps the engine fit for
    spin-up, never gives write capacity back, and takes some unless it
    reports exhaustion. *)
Lemma Update_spinup_progress {RL : RingBufferLaws R} (st : State) :
  spinup_ok st ->
  0 < WriteCapacity (ring_buf st) ->
  exists more st',
    Update st = Ok more st'
    /\ spinup_ok st'
    /\ WriteCapacity (ring_buf st') <= WriteCapacity (ring_buf st)
    /\ (more = true ->
        WriteCapacity (ring_buf st') < WriteCapacity (ring_buf st)).
Proof.
  intros [Hok [Hw Hal]] Hc.
  rewrite (Update_eq st Hok). cbv zeta.
  pose proof (fetched_engine_ok st Hok) as Hok1.
  pose proof (fetched_fields st) as [Hb1 [Hfr1 Hr1]].
  assert (Hw1 : frames_whole (av (fetched st)))
    by (unfold frames_whole in *; rewrite Hb1, Hfr1; exact Hw).
  pose proof (fetched_frame_aligned st Hw Hal) as Hal1.
  assert (Hs1 : spinup_ok (fetched st)) by (split; [|split]; assumption).
  set (st1 := fetched st) in *.
  destruct (frame_empty st1) eqn:E.
  - exists false, (set_file_ended true st1). split; [reflexivity|].
    split; [revert Hs1; apply spinup_ok_ext; reflexivity|].
    simpl. rewrite Hr1. split; [lia|discriminate].
  - apply frame_empty_false in E.
    destruct Hok as [_ [_ Hf]].
    pose proof (fetched_nonempty_inside st Hf E) as Hi. fold st1 in Hi.
    destruct Hok1 as [[Hb Hl] [He Hf1]].
    assert (Hq : 1 <= (frame_end st1 - frame_iterator st1)
                      / bytes_per_sample (av st1)).
    { unfold frame_aligned in Hal1.
      apply Z.div_exact in Hal1; [|lia].
      set (q := (frame_end st1 - frame_iterator st1)
                / bytes_per_sample (av st1)) in *.
      nia. }
    assert (Hn : 0 < transfer_count st1 <= WriteCapacity (ring_buf st1)).
    { unfold transfer_count. rewrite Hr1. lia. }
    replace (0 <? transfer_count st1) with true
      by (symmetry; apply Z.ltb_lt; lia).
    rewrite Write_full by exact Hn. rewrite Z.eqb_refl.
    eexists true, _. split; [reflexivity|].
    set (w := Write (ring_buf st1) (write_source st1) (transfer_count st1)).
    split.
    + assert (H2 : spinup_ok (advanced (transfer_count st1)
                                       (set_ring_buf (snd w) st1))).
      { pose proof (advanced_fields (transfer_count st1)
                                    (set_ring_buf (snd w) st1)) as [Hav _].
        split; [|split].
        - apply advanced_engine_ok; [simpl; nia|].
          apply (engine_ok_ext st1); try reflexivity.
          repeat split; assumption.
        - rewrite Hav. exact Hw1.
        - apply advanced_frame_aligned; [exact Hb|exact Hal1]. }
      revert H2; apply spinup_ok_ext; reflexivity.
    + simpl.
      pose proof (advanced_fields (transfer_count st1)
                                  (set_ring_buf (snd w) st1)) as [_ Hrb].
      rewrite Hrb. simpl. unfold w.
      rewrite Write_WriteCapacity by lia.
      rewrite Write_full by exact Hn. rewrite <- Hr1. lia.
Qed.

Lemma aligned_ext (st st' : State) :
  av st' = av st -> frame st' = frame st ->
  frame_iterator st' = frame_iterator st ->
  (frames_whole (av st) -> frame_aligned st) ->
  (frames_whole (av st') -> frame_aligned st').
Proof.
  unfold frame_aligned, frame_end. intros -> -> ->. tauto.
Qed.

Lemma fetched_aligned (st : State) :
  (frames_whole (av st) -> frame_aligned st) ->
  (frames_whole (av (fetched st)) -> frame_aligned (fetched st)).
Proof.
  intros H Hw.
  pose proof (fetched_fields st) as [Hb [Hfr _]].
  assert (Hw0 : frames_whole (av st))
    by (unfold frames_whole in *; rewrite <- Hb, <- Hfr; exact Hw).
  apply fetched_frame_aligned; auto.
Qed.

(** Whatever the ring buffer does, [Update] leaves whole samples in the
    frame when the decoder yields whole samples. *)
Lemma Update_aligned (st : State) :
  engine_ok st ->
  (frames_whole (av st) -> frame_aligned st) ->
  match Update st with
  | Ok _ st' => frames_whole (av st') -> frame_aligned st'
  | Throw _ st' => frames_whole (av st') -> frame_aligned st'
  | Abort => True
  end.
Proof.
  intros Hok Hal. rewrite (Update_eq st Hok). cbv zeta.
  pose proof (fetched_aligned st Hal) as H1.
  pose proof (fetched_engine_ok st Hok) as [[Hb _] _].
  destruct (frame_empty (fetched st)).
  - revert H1; apply aligned_ext; reflexivity.
  - destruct (0 <? transfer_count (fetched st)).
    + match goal with |- context [fst ?w =? ?n] => destruct (fst w =? n) end.
      * match goal with
          |- frames_whole (av (set_file_ended _ (advanced ?n ?s))) -> _ =>
            pose proof (advanced_fields n s) as [Hav _];
            assert (H2 : frames_whole (av (advanced n s)) ->
                         frame_aligned (advanced n s))
        end.
        { rewrite Hav. intros Hw. apply advanced_frame_aligned; [exact Hb|].
          apply H1. exact Hw. }
        revert H2; apply aligned_ext; reflexivity.
      * revert H1; apply aligned_ext; reflexivity.
    + revert H1; apply aligned_ext; reflexivity.
Qed.

Lemma after_Update_aligned (st : State) :
  engine_ok st ->
  (frames_whole (av st) -> frame_aligned st) ->
  frames_whole (av (after_Update st)) -> frame_aligned (after_Update st).
Proof.
  intros Hok Hal. pose proof (Update_aligned st Hok Hal) as H.
  unfold after_Update. destruct (Update st); auto.
Qed.

Lemma fill_context_runs_aligned (n : nat) (st : State) :
  engine_ok st ->
  (frames_whole (av st) -> frame_aligned st) ->
  frames_whole (av (fill_context_runs n st)) ->
  frame_aligned (fill_context_runs n st).
Proof.
  intros Hok Hal. unfold fill_context_runs.
  assert (H : engine_ok (Nat.iter n after_Update st)
              /\ (frames_whole (av (Nat.iter n after_Update st)) ->
                  frame_aligned (Nat.iter n after_Update st))).
  { induction n as [|n [IH1 IH2]]; simpl; [now split|].
    split; [now apply after_Update_engine_ok|].
    now apply after_Update_aligned. }
  apply H.
Qed.

Lemma paCallbackLoop_aligned (fuel : nat) :
  forall (sched : list nat) (cout n : Z) (result : PlayCallbackStepResult)
         (mem : Memory) (st : State) res,
    engine_ok st ->
    (frames_whole (av st) -> frame_aligned st) ->
    paCallbackLoop fuel sched cout n result mem st = Some res ->
    frames_whole (av (snd res)) -> frame_aligned (snd res).
Proof.
  induction fuel as [|fuel IH]; intros sched cout n result mem st res Hok Hal;
    simpl; destruct (callback_continues n result);
    try (intros [= <-]; exact Hal); try discriminate.
  pose proof (PlayCallbackStep_fill_fields cout n result mem
                (fill_context_runs (hd 0%nat sched) st)) as Hs.
  destruct (PlayCallbackStep cout n result mem
              (fill_context_runs (hd 0%nat sched) st)) as [[r' m'] s'].
  simpl in Hs. destruct Hs as [Ha [Hf [Hi _]]].
  apply IH.
  - apply (engine_ok_ext (fill_context_runs (hd 0%nat sched) st));
      try assumption.
    now apply fill_context_runs_engine_ok.
  - apply (aligned_ext (fill_context_runs (hd 0%nat sched) st));
      try assumption.
    now apply fill_context_runs_aligned.
Qed.

(** Over a decoder of whole samples every reachable state is fit for
    spin-up. *)
Lemma reachable_spinup_ok (st : State) :
  reachable st -> frames_whole (av st) -> spinup_ok st.
Proof.
  intros Hr Hw. split; [now apply reachable_engine_ok|split; [exact Hw|]].
  revert Hw.
  induction Hr as [d nr Hd | st st' more Hr IH HU | st st' e Hr IH HU
                  | st t Hr IH | st st' sched out n mem mem' result Hr IH HC].
  - intros _. unfold new_AudioOutput, frame_aligned, frame_end. simpl.
    apply Zmod_0_l.
  - pose proof (Update_aligned st (reachable_engine_ok st Hr) IH) as H.
    now rewrite HU in H.
  - pose proof (Update_aligned st (reachable_engine_ok st Hr) IH) as H.
    now rewrite HU in H.
  - intros _. unfold SeekToPositionMicroseconds, frame_aligned, frame_end.
    simpl. apply Zmod_0_l.
  - unfold paCallbackFun in HC.
    apply (paCallbackLoop_aligned _ _ _ _ _ _ _ _
             (reachable_engine_ok st Hr) IH HC).
Qed.

Variables RINGBUF_SIZE SPINUP_SIZE : Z.

Lemma PreFillLoop_stopped (fuel : nat) (more : bool) (c : Z) (st : State) :
  spinup_continues RINGBUF_SIZE SPINUP_SIZE more c = false ->
  PreFillLoop RINGBUF_SIZE SPINUP_SIZE fuel more c st = Some (Ok more st).
Proof.
  intros H. destruct fuel; simpl; rewrite H; reflexivity.
Qed.

(** More fuel does not change the result of a loop that was left. *)
Lemma PreFillLoop_fuel_mono (fuel : nat) :
  forall (more : bool) (c : Z) (st : State) res,
    PreFillLoop RINGBUF_SIZE SPINUP_SIZE fuel more c st = Some res ->
    forall fuel', (fuel <= fuel')%nat ->
      PreFillLoop RINGBUF_SIZE SPINUP_SIZE fuel' more c st = Some res.
Proof.
  induction fuel as [|fuel IH]; intros more c st res H fuel' Hle.
  - simpl in H.
    destruct (spinup_continues RINGBUF_SIZE SPINUP_SIZE more c) eqn:E;
      [discriminate|].
    rewrite PreFillLoop_stopped by exact E. exact H.
  - destruct fuel' as [|fuel']; [lia|]. simpl in *.
    destruct (spinup_continues RINGBUF_SIZE SPINUP_SIZE more c);
      [|exact H].
    destruct (Update st) as [more' st'| |]; try exact H.
    apply (IH _ _ _ _ H). lia.
Qed.

(** The loop of spin-up is left after at most as many rounds as the ring
    buffer has free slots, plus one. *)
Lemma PreFillLoop_terminates {RL : RingBufferLaws R} (fuel : nat) :
  forall (more : bool) (st : State),
    spinup_ok st ->
    (Z.to_nat (WriteCapacity (ring_buf st)) < fuel)%nat ->
    exists more' st',
      PreFillLoop RINGBUF_SIZE SPINUP_SIZE fuel more
                  (WriteCapacity (ring_buf st)) st = Some (Ok more' st')
      /\ spinup_continues RINGBUF_SIZE SPINUP_SIZE more'
                          (WriteCapacity (ring_buf st')) = false
      /\ WriteCapacity (ring_buf st') <= WriteCapacity (ring_buf st)
      /\ spinup_ok st'.
Proof.
  induction fuel as [|fuel IH]; intros more st Hs Hfuel; [lia|].
  simpl.
  destruct (spinup_continues RINGBUF_SIZE SPINUP_SIZE more
                             (WriteCapacity (ring_buf st))) eqn:E.
  - assert (Hc : 0 < WriteCapacity (ring_buf st)).
    { unfold spinup_continues in E.
      apply andb_prop in E as [E _]. apply andb_prop in E as [_ E].
      now apply Z.ltb_lt in E. }
    destruct (Update_spinup_progress st Hs Hc)
      as [more' [st' [HU [Hs' [Hle Hlt]]]]].
    rewrite HU. unfold RingBufferWriteCapacity.
    destruct more'.
    + specialize (Hlt eq_refl).
      pose proof (WriteCapacity_nonneg (ring_buf st')) as H0.
      destruct (IH true st' Hs') as [m [s [H1 [H2 [H3 H4]]]]]; [lia|].
      exists m, s.
      split; [exact H1|split; [exact H2|split; [lia|exact H4]]].
    + exists false, st'.
      split; [apply PreFillLoop_stopped; reflexivity|].
      split; [reflexivity|split; [exact Hle|exact Hs']].
  - exists more, st.
    split; [reflexivity|split; [exact E|split; [lia|exact Hs]]].
Qed.

(** What one returning [Update] can add to the ring buffer: at most the
    samples left in the frame it works on, hence at most [F]. *)
Lemma Update_writes_at_most {RL : RingBufferLaws R} (F : Z)
      (st st' : State) (more : bool) :
  engine_ok st ->
  frames_at_most F st ->
  Update st = Ok more st' ->
  frames_at_most F st'
  /\ WriteCapacity (ring_buf st) - F <= WriteCapacity (ring_buf st')
     <= WriteCapacity (ring_buf st).
Proof.
  intros Hok [Hrem Hfr] HU.
  pose proof (fetched_engine_ok st Hok) as [[Hb _] [_ Hf1]].
  pose proof (fetched_fields st) as [Hb1 [Hfr1 Hr1]].
  rewrite (Update_eq st Hok) in HU. cbv zeta in HU.
  destruct Hok as [_ [_ Hf]].
  set (st1 := fetched st) in *.
  assert (Hrem1 : (frame_end st1 - frame_iterator st1)
                  / bytes_per_sample (av st1) <= F).
  { unfold st1, fetched. destruct (FrameFinished st); [|exact Hrem].
    destruct st as [d r p f i e]; unfold frame_end in *; simpl in *.
    rewrite Z.sub_0_r. apply Hfr. }
  assert (Hfr' : forall i, Z.of_nat (length (frames (av st1) i))
                           / bytes_per_sample (av st1) <= F)
    by (rewrite Hb1, Hfr1; exact Hfr).
  assert (Hpos : 0 <= frame_end st1 - frame_iterator st1).
  { destruct Hf1 as [[H1 H2]|H1]; [|lia].
    unfold frame_end. rewrite H1, H2. simpl. lia. }
  assert (HF : 0 <= F).
  { apply Z.le_trans with (2 := Hrem1). apply Z.div_pos; lia. }
  assert (Hsame : frames_at_most F st1) by (split; assumption).
  assert (Hext : forall s : State,
             av s = av st1 -> frame s = frame st1 ->
             frame_iterator s = frame_iterator st1 -> frames_at_most F s).
  { intros s Ha Hfs His. unfold frames_at_most, frame_end.
    rewrite Ha, Hfs, His. exact Hsame. }
  destruct (frame_empty st1).
  - injection HU as _ <-. split; [now apply Hext|].
    simpl. rewrite Hr1. lia.
  - destruct (0 <? transfer_count st1) eqn:C.
    + apply Z.ltb_lt in C.
      match type of HU with context [fst ?w =? ?n] =>
        destruct (fst w =? n) eqn:W; [|discriminate] end.
      apply Z.eqb_eq in W. injection HU as _ <-.
      set (w := Write (ring_buf st1) (write_source st1) (transfer_count st1))
        in *.
      pose proof (advanced_fields (transfer_count st1)
                                  (set_ring_buf (snd w) st1)) as [Hav Hrb].
      assert (Hn : transfer_count st1 <= F)
        by (unfold transfer_count in *; lia).
      split.
      * unfold frames_at_most, frame_end. simpl.
        unfold advanced.
        change (frame_end (set_ring_buf (snd w) st1)) with (frame_end st1).
        change (frame_iterator (set_ring_buf (snd w) st1))
          with (frame_iterator st1).
        change (av (set_ring_buf (snd w) st1)) with (av st1).
        destruct (frame_end st1
                  <=? frame_iterator st1
                      + transfer_count st1 * bytes_per_sample (av st1)).
        -- simpl. split; [|exact Hfr'].
           rewrite Z.div_0_l by lia. exact HF.
        -- simpl. split; [|exact Hfr'].
           apply Z.le_trans with (2 := Hrem1).
           apply Z.div_le_mono; [lia|]. unfold frame_end. nia.
      * simpl. rewrite Hrb. simpl. unfold w.
        rewrite Write_WriteCapacity by lia. fold w. rewrite W, <- Hr1. lia.
    + injection HU as _ <-. split; [now apply Hext|].
      simpl. rewrite Hr1. lia.
Qed.

(** Spin-up starts an [Update] only below the threshold, so on return the
    filled amount is what it was at the start or below the threshold
    plus [F]. *)
Lemma PreFillLoop_cap {RL : RingBufferLaws R} (F : Z) (fuel : nat) :
  forall (more : bool) (st : State) (more' : bool) (st' : State),
    engine_ok st ->
    frames_at_most F st ->
    RINGBUF_SIZE < two64 ->
    WriteCapacity (ring_buf st) <= RINGBUF_SIZE ->
    PreFillLoop RINGBUF_SIZE SPINUP_SIZE fuel more
                (WriteCapacity (ring_buf st)) st = Some (Ok more' st') ->
    RINGBUF_SIZE - WriteCapacity (ring_buf st')
    <= Z.max (RINGBUF_SIZE - WriteCapacity (ring_buf st))
             (SPINUP_SIZE - 1 + F).
Proof.
  induction fuel as [|fuel IH]; intros more st more' st' Hok Hfm Hrs Hcap;
    simpl;
    destruct (spinup_continues RINGBUF_SIZE SPINUP_SIZE more
                               (WriteCapacity (ring_buf st))) eqn:E;
    try discriminate; try (intros [= <- <-]; lia).
  unfold spinup_continues in E.
  apply andb_prop in E as [E E2]. apply andb_prop in E as [_ E1].
  apply Z.ltb_lt in E1. apply Z.ltb_lt in E2.
  rewrite wrap64_small in E2 by lia.
  destruct (Update st) as [m s| |] eqn:HU; try discriminate.
  destruct (Update_writes_at_most F st s m Hok Hfm HU) as [Hfm' Hw].
  pose proof (Update_engine_ok st Hok) as Hok'. rewrite HU in Hok'.
  unfold RingBufferWriteCapacity. intros H.
  apply IH in H; try assumption; lia.
Qed.

(** C9, as amended.  From any reachable state, over a ring buffer that
    keeps its contract and a decoder whose frames are made of whole
    samples, spin-up returns without error (one more round than the ring
    buffer has free slots is always enough, and more fuel gives the same
    result).  When [SPINUP_SIZE] is at most [RINGBUF_SIZE] and the free
    space at most [RINGBUF_SIZE], then on return the last [Update]
    reported exhaustion or the filled amount, [RINGBUF_SIZE] less the free
    space, has reached the threshold.  The filled amount is not capped by
    the threshold itself: when the rest of the current frame and every
    decoded frame hold at most [F] samples, it is on return at most the
    larger of what it was at the start and [SPINUP_SIZE - 1 + F]. *)
Theorem PreFillRingBuffer_terminates {RL : RingBufferLaws R} (st : State) :
  reachable st ->
  frames_whole (av st) ->
  exists more st',
    (forall fuel,
        (Z.to_nat (WriteCapacity (ring_buf st)) < fuel)%nat ->
        PreFillRingBuffer RINGBUF_SIZE SPINUP_SIZE fuel st
        = Some (Ok more st'))
    /\ (0 <= SPINUP_SIZE <= RINGBUF_SIZE ->
        RINGBUF_SIZE < two64 ->
        WriteCapacity (ring_buf st) <= RINGBUF_SIZE ->
        more = false
        \/ SPINUP_SIZE <= RINGBUF_SIZE - WriteCapacity (ring_buf st'))
    /\ (forall F,
           frames_at_most F st ->
           RINGBUF_SIZE < two64 ->
           WriteCapacity (ring_buf st) <= RINGBUF_SIZE ->
           RINGBUF_SIZE - WriteCapacity (ring_buf st')
           <= Z.max (RINGBUF_SIZE - WriteCapacity (ring_buf st))
                    (SPINUP_SIZE - 1 + F)).
Proof.
  intros Hr Hw.
  pose proof (reachable_spinup_ok st Hr Hw) as Hs.
  pose proof (WriteCapacity_nonneg (ring_buf st)) as Hc0.
  destruct (PreFillLoop_terminates
              (S (Z.to_nat (WriteCapacity (ring_buf st)))) true st Hs)
    as [more [st' [H1 [H2 [H3 _]]]]]; [lia|].
  exists more, st'. split; [|split].
  - intros fuel Hfuel. unfold PreFillRingBuffer, RingBufferWriteCapacity.
    apply (PreFillLoop_fuel_mono _ _ _ _ _ H1). lia.
  - intros Hsp Hrs Hcap.
    pose proof (WriteCapacity_nonneg (ring_buf st')) as Hc1.
    unfold spinup_continues in H2.
    destruct more; [right|now left]. simpl in H2.
    destruct (0 <? WriteCapacity (ring_buf st')) eqn:C; simpl in H2.
    + apply Z.ltb_ge in H2.
      rewrite wrap64_small in H2 by lia. exact H2.
    + apply Z.ltb_ge in C. lia.
  - intros F Hfm Hrs Hcap.
    apply (PreFillLoop_cap F _ true st more st' (proj1 Hs) Hfm Hrs Hcap H1).
Qed.

End SpinupClaims.

(** C9 fails as stated, on two counts.  Termination: the only frame of
    [OddFrame.decoder] holds a whole sample (and a half); spin-up writes
    the sample, and from then on every [Update] returns [true] without
    writing, so that no amount of fuel sees the loop end.  Cap: with a
    threshold of 1 sample and a first frame of 8 samples, spin-up fills
    the whole ring buffer of 8 samples. *)
Lemma PreFillRingBuffer_counterexample :
  decoder_ok OddFrame.decoder
  /\ frames_hold_a_sample OddFrame.decoder
  /\ reachable OddFrame.engine0
  /\ (forall fuel,
         PreFillRingBuffer OddFrame.RINGBUF_SIZE OddFrame.SPINUP_SIZE fuel
                           OddFrame.engine0 = None)
  /\ frames_hold_a_sample BigFrame.decoder
  /\ reachable BigFrame.engine0
  /\ exists st',
       PreFillRingBuffer BigFrame.RINGBUF_SIZE BigFrame.SPINUP_SIZE 9
                         BigFrame.engine0 = Some (Ok true st')
       /\ BigFrame.RINGBUF_SIZE - WriteCapacity (ring_buf st') = 8
       /\ ReadCapacity (ring_buf st') = BigFrame.RINGBUF_SIZE
       /\ BigFrame.SPINUP_SIZE < BigFrame.RINGBUF_SIZE - WriteCapacity (ring_buf st').
Proof.
  split; [apply OddFrame_decoder_ok|].
  split.
  { intros [|i] H; simpl in *; [lia|congruence]. }
  split; [apply reach_new, OddFrame_decoder_ok|].
  split.
  2:{ split.
      { intros [|i] H; simpl in *; [lia|congruence]. }
      split.
      { apply reach_new. split; [reflexivity|].
        intros [|i]; simpl; reflexivity. }
      eexists. split; [vm_compute; reflexivity|].
      vm_compute. repeat split; reflexivity. }
  assert (Hloop : forall fuel,
             PreFillLoop OddFrame.RINGBUF_SIZE OddFrame.SPINUP_SIZE fuel true 7
                         (after_Update OddFrame.engine0) = None).
  { induction fuel as [|fuel IH]; [reflexivity|].
    change (PreFillLoop OddFrame.RINGBUF_SIZE OddFrame.SPINUP_SIZE (S fuel)
                        true 7 (after_Update OddFrame.engine0))
      with (match Update (after_Update OddFrame.engine0) with
            | Ok more' st' =>
                PreFillLoop OddFrame.RINGBUF_SIZE OddFrame.SPINUP_SIZE fuel
                            more' (RingBufferWriteCapacity st') st'
            | Throw e st' => Some (Throw e st')
            | Abort => Some Abort
            end).
    replace (Update (after_Update OddFrame.engine0))
      with (Ok (S:=AudioOutput SpecRing.t) true (after_Update OddFrame.engine0))
      by (vm_compute; reflexivity).
    replace (RingBufferWriteCapacity (after_Update OddFrame.engine0)) with 7
      by (vm_compute; reflexivity).
    exact IH. }
  intros [|fuel]; [reflexivity|].
  change (PreFillRingBuffer OddFrame.RINGBUF_SIZE OddFrame.SPINUP_SIZE (S fuel)
                            OddFrame.engine0)
    with (match Update OddFrame.engine0 with
          | Ok more' st' =>
              PreFillLoop OddFrame.RINGBUF_SIZE OddFrame.SPINUP_SIZE fuel
                          more' (RingBufferWriteCapacity st') st'
          | Throw e st' => Some (Throw e st')
          | Abort => Some Abort
          end).
  replace (Update OddFrame.engine0)
    with (Ok (S:=AudioOutput SpecRing.t) true (after_Update OddFrame.engine0))
    by (vm_compute; reflexivity).
  replace (RingBufferWriteCapacity (after_Update OddFrame.engine0)) with 7
    by (vm_compute; reflexivity).
  apply Hloop.
Qed.

(* ------------------------------------------------------------------ *)
(** ** The theorems at work on the concrete engines *)

Lemma Update_keeps_cursor_inside_witness :
  reachable WorkedExample.small0
  /\ Update WorkedExample.small0 = Ok true WorkedExample.small1
  /\ cursor_inside WorkedExample.small1
  /\ (0 < transfer_count (fetched WorkedExample.small0) ->
      cursor_strictly_inside WorkedExample.small1).
Proof.
  assert (Hr : reachable WorkedExample.small0)
    by (apply reach_new, WorkedExample_decoder_ok).
  assert (HU : Update WorkedExample.small0 = Ok true WorkedExample.small1)
    by (vm_compute; reflexivity).
  split; [exact Hr|]. split; [exact HU|].
  exact (Update_keeps_cursor_inside WorkedExample.small0 WorkedExample.small1
           true Hr HU).
Defined.

Lemma WorkedExample_slow0_engine_ok : engine_ok WorkedExample.slow0.
Proof. apply reachable_engine_ok, reach_new, WorkedExample_decoder_ok. Qed.

(** Over the backend that moves one unit per call the first [Update]
    asks for 5 samples, is told 1, and throws. *)
Example Update_throws_over_short_write :
  transfer_count (fetched WorkedExample.slow0) = 5
  /\ fst (Write (ring_buf (fetched WorkedExample.slow0))
                (write_source (fetched WorkedExample.slow0)) 5) = 1
  /\ exists s, Update WorkedExample.slow0
               = Throw (InternalError MSG_OUTPUT_RINGWRITE) s.
Proof.
  split; [vm_compute; reflexivity|]. split; [vm_compute; reflexivity|].
  eexists. vm_compute. reflexivity.
Qed.

Lemma Update_throws_iff_short_write_witness :
  engine_ok WorkedExample.slow0
  /\ (let st1 := fetched WorkedExample.slow0 in
      let n := transfer_count st1 in
      let written := fst (Write (ring_buf st1) (write_source st1) n) in
      ((exists e s, Update WorkedExample.slow0 = Throw e s)
       <-> (frame st1 <> [] /\ 0 < n <= WriteCapacity (ring_buf st1)
            /\ written <> n))
      /\ (forall e s, Update WorkedExample.slow0 = Throw e s ->
                      e = InternalError MSG_OUTPUT_RINGWRITE)
      /\ (frame st1 <> [] -> 0 < n -> written = n ->
          exists st', Update WorkedExample.slow0 = Ok true st'
            /\ let moved :=
                 frame_iterator st1 + ByteCountForSampleCount st1 n in
               if frame_end st1 <=? moved
               then frame st' = [] /\ frame_iterator st' = 0
               else frame st' = frame st1 /\ frame_iterator st' = moved)).
Proof.
  split; [exact WorkedExample_slow0_engine_ok|].
  exact (Update_throws_iff_short_write WorkedExample.slow0
           WorkedExample_slow0_engine_ok).
Defined.

Lemma Seek_then_CurrentPosition_witness :
  RingBufferLaws SpecRing.t
  /\ (let st' := SeekToPositionMicroseconds 3000 WorkedExample.engine1 in
      CurrentPositionMicroseconds st'
      = PositionMicrosecondsForSampleCount (av st')
          (SampleCountForPositionMicroseconds (av st') 3000)
      /\ position_sample_count st'
         = SampleCountForPositionMicroseconds (av st') 3000
      /\ ReadCapacity (ring_buf st') = 0
      /\ frame st' = [] /\ frame_empty st' = true
      /\ FileEnded st' = false).
Proof.
  split; [exact SpecRing_RingBufferLaws|].
  exact (@Seek_then_CurrentPosition SpecRing.t SpecRing_RingBuffer
           SpecRing_RingBufferLaws 3000 WorkedExample.engine1).
Defined.

Lemma Update_reports_exhaustion_witness :
  RingBufferLaws SpecRing.t
  /\ engine_ok WorkedExample.engine1
  /\ (FrameFinished WorkedExample.engine1 = true ->
      fst (Decode (av WorkedExample.engine1)) = [] ->
      exists st', Update WorkedExample.engine1 = Ok false st'
                  /\ FileEnded st' = true)
  /\ (frame (fetched WorkedExample.engine1) <> [] ->
      exists st', Update WorkedExample.engine1 = Ok true st'
                  /\ FileEnded st' = false).
Proof.
  assert (Hok : engine_ok WorkedExample.engine1)
    by (apply reachable_engine_ok, WorkedExample_engine1_reachable).
  split; [exact SpecRing_RingBufferLaws|]. split; [exact Hok|].
  exact (@Update_reports_exhaustion SpecRing.t SpecRing_RingBuffer
           SpecRing_RingBufferLaws WorkedExample.engine1 Hok).
Defined.

Lemma Update_after_exhaustion_witness :
  frame WorkedExample.engine2 = []
  /\ frame_iterator WorkedExample.engine2 = 0
  /\ fst (Decode (av WorkedExample.engine2)) = []
  /\ exists st',
      Update WorkedExample.engine2 = Ok false st'
      /\ ring_buf st' = ring_buf WorkedExample.engine2
      /\ ReadCapacity (ring_buf st') = ReadCapacity (ring_buf WorkedExample.engine2)
      /\ WriteCapacity (ring_buf st')
         = WriteCapacity (ring_buf WorkedExample.engine2)
      /\ frame st' = frame WorkedExample.engine2
      /\ frame_iterator st' = frame_iterator WorkedExample.engine2
      /\ position_sample_count st'
         = position_sample_count WorkedExample.engine2
      /\ file_ended st' = true
      /\ (fst (Decode (av st')) = [] ->
          exists st'',
            Update st' = Ok false st''
            /\ ring_buf st'' = ring_buf st'
            /\ frame st'' = frame st'
            /\ frame_iterator st'' = frame_iterator st'
            /\ position_sample_count st'' = position_sample_count st'
            /\ file_ended st'' = file_ended st').
Proof.
  assert (H1 : frame WorkedExample.engine2 = []) by (vm_compute; reflexivity).
  assert (H2 : frame_iterator WorkedExample.engine2 = 0)
    by (vm_compute; reflexivity).
  assert (H3 : fst (Decode (av WorkedExample.engine2)) = [])
    by (vm_compute; reflexivity).
  split; [exact H1|]. split; [exact H2|]. split; [exact H3|].
  exact (Update_after_exhaustion WorkedExample.engine2 H1 H2 H3).
Defined.


Lemma callback_complete_when_drained_and_ended_witness :
  0 < 6
  /\ ReadCapacity (ring_buf WorkedExample.engine3) = 0
  /\ FileEnded WorkedExample.engine3 = true
  /\ paCallbackLoop 1 [] WorkedExample.out 6 (paContinue, 0) blank
                    WorkedExample.engine3
     = Some ((paComplete, 0), blank, WorkedExample.engine3).
Proof.
  assert (H1 : 0 < 6) by lia.
  assert (H2 : ReadCapacity (ring_buf WorkedExample.engine3) = 0)
    by (vm_compute; reflexivity).
  assert (H3 : FileEnded WorkedExample.engine3 = true)
    by (vm_compute; reflexivity).
  split; [exact H1|]. split; [exact H2|]. split; [exact H3|].
  exact (proj1 callback_complete_when_drained_and_ended
               SpecRing.t SpecRing_RingBuffer 0%nat [] WorkedExample.out 6 0
               blank WorkedExample.engine3 H1 H2 H3).
Defined.

Lemma WorkedExample_frames_whole : frames_whole WorkedExample.decoder.
Proof. intros [|i]; reflexivity. Qed.

Lemma PreFillRingBuffer_terminates_witness :
  RingBufferLaws SpecRing.t
  /\ reachable WorkedExample.engine0
  /\ frames_whole (av WorkedExample.engine0)
  /\ exists more st',
      (forall fuel,
          (Z.to_nat (WriteCapacity (ring_buf WorkedExample.engine0))
           < fuel)%nat ->
          PreFillRingBuffer 8 4 fuel WorkedExample.engine0
          = Some (Ok more st'))
      /\ (0 <= 4 <= 8 ->
          8 < two64 ->
          WriteCapacity (ring_buf WorkedExample.engine0) <= 8 ->
          more = false \/ 4 <= 8 - WriteCapacity (ring_buf st'))
      /\ (forall F,
             frames_at_most F WorkedExample.engine0 ->
             8 < two64 ->
             WriteCapacity (ring_buf WorkedExample.engine0) <= 8 ->
             8 - WriteCapacity (ring_buf st')
             <= Z.max (8 - WriteCapacity (ring_buf WorkedExample.engine0))
                      (4 - 1 + F)).
Proof.
  split; [exact SpecRing_RingBufferLaws|].
  split; [exact WorkedExample_engine0_reachable|].
  split; [exact WorkedExample_frames_whole|].
  exact (@PreFillRingBuffer_terminates SpecRing.t SpecRing_RingBuffer 8 4
           SpecRing_RingBufferLaws WorkedExample.engine0
           WorkedExample_engine0_reachable WorkedExample_frames_whole).
Defined.

(** The hypotheses of the two conditional parts hold on the worked
    example, whose frames hold at most 5 samples: spin-up returns with 5
    samples filled, between the threshold 4 and the cap 4 - 1 + 5. *)
Example PreFillRingBuffer_worked_example_bounds :
  0 <= 4 <= 8 /\ 8 < two64
  /\ WriteCapacity (ring_buf WorkedExample.engine0) <= 8
  /\ frames_at_most 5 WorkedExample.engine0.
Proof.
  split; [lia|]. split; [reflexivity|]. split; [vm_compute; discriminate|].
  split; [vm_compute; discriminate|].
  intros [|i]; vm_compute; discriminate.
Qed.

(** Spin-up on the worked example: one [Update] writes the 5 samples and
    the threshold of 4 is passed. *)
Example PreFillRingBuffer_worked_example :
  PreFillRingBuffer 8 4 9 WorkedExample.engine0
  = Some (Ok true WorkedExample.engine1).
Proof. vm_compute. reflexivity. Qed.

(* ------------------------------------------------------------------ *)
(** ** Further properties of the fill side *)

Section FillExtras.

Context {R : Type} `{RB : RingBuffer R}.

Abbreviation State := (AudioOutput R).

(** X1.  From every reachable state [Update] returns or throws: none of
    the assertions of [Update], [DecodeIfFrameEmpty],
    [RingBufferTransferCount], [WriteToRingBuffer] and
    [AdvanceFrameIterator] fails, whatever the ring buffer does. *)
Theorem Update_assertions_hold (st : State) :
  reachable st -> Update st <> Abort.
Proof.
  intros Hr. pose proof (Update_engine_ok st (reachable_engine_ok st Hr)) as H.
  destruct (Update st); [discriminate|discriminate|contradiction].
Qed.

(** X2.  In every reachable state the frame is finished exactly when it
    is empty: a frame is emptied as soon as its iterator reaches its
    end, and the iterator of an empty frame is at its start. *)
Theorem reachable_finished_iff_empty (st : State) :
  reachable st ->
  (FrameFinished st = true <-> frame_empty st = true)
  /\ (frame_empty st = true -> frame_iterator st = 0).
Proof.
  intros Hr. destruct (reachable_engine_ok st Hr) as [_ [_ Hf]].
  split.
  - rewrite frame_empty_true. now apply frame_ok_finished.
  - rewrite frame_empty_true. intros He.
    destruct Hf as [[_ Hi]|Hi]; [exact Hi|].
    unfold frame_end in Hi. rewrite He in Hi. simpl in Hi. lia.
Qed.

(** X3.  The count [RingBufferTransferCount] returns never exceeds the
    free space of the ring buffer, and the bytes of that many samples,
    computed without wrap-around, all lie in the frame from the
    iterator on: a write of that count does not read past the end of the
    frame. *)
Theorem RingBufferTransferCount_within_frame (st st' : State) (n : Z) :
  engine_ok st ->
  RingBufferTransferCount st = Ok n st' ->
  st' = st
  /\ n <= RingBufferWriteCapacity st
  /\ (0 <= n ->
      ByteCountForSampleCount st n = n * bytes_per_sample (av st)
      /\ ByteCountForSampleCount st n
         <= Z.of_nat (length (skipn (Z.to_nat (frame_iterator st)) (frame st)))).
Proof.
  intros [[Hb Hl] [He Hf]] HT.
  assert (Hi : 0 <= frame_iterator st < frame_end st).
  { destruct Hf as [[Hf Hi]|Hi]; [|exact Hi].
    unfold RingBufferTransferCount, bind, get, assert, frame_empty in HT.
    rewrite Hf in HT. discriminate. }
  rewrite (RingBufferTransferCount_eq st He Hi) in HT.
  injection HT as <- <-.
  split; [reflexivity|].
  split; [unfold transfer_count, RingBufferWriteCapacity; lia|].
  intros Hn.
  assert (Hlen : Z.of_nat (length (skipn (Z.to_nat (frame_iterator st))
                                         (frame st)))
                 = frame_end st - frame_iterator st).
  { rewrite length_skipn. unfold frame_end in *. lia. }
  rewrite Hlen.
  assert (Hle : transfer_count st * bytes_per_sample (av st)
                <= frame_end st - frame_iterator st).
  { destruct (Z.eq_dec (transfer_count st) 0) as [E|E];
      [rewrite E; lia|].
    apply (transfer_count_bytes st Hb Hi (transfer_count st)). lia. }
  unfold ByteCountForSampleCount, DecoderByteCountForSampleCount.
  rewrite wrap64_small by nia. lia.
Qed.

(** X4.  [Update] never moves the play position, and while a frame is in
    progress it does not ask the decoder for another one: whether it
    returns or throws, position and decoder are as before. *)
Theorem Update_keeps_position_and_frame_in_progress (st st' : State) :
  engine_ok st ->
  (exists more, Update st = Ok more st') \/ (exists e, Update st = Throw e st') ->
  position_sample_count st' = position_sample_count st
  /\ (frame st <> [] -> av st' = av st).
Proof.
  intros Hok HU.
  assert (Hfe : frame st <> [] -> fetched st = st).
  { intros Hne. unfold fetched.
    destruct Hok as [_ [_ Hf]].
    destruct (FrameFinished st) eqn:E; [|reflexivity].
    apply (frame_ok_finished st Hf) in E. contradiction. }
  assert (Hp : position_sample_count (fetched st) = position_sample_count st).
  { unfold fetched. destruct (FrameFinished st); destruct st; reflexivity. }
  rewrite (Update_eq st Hok) in HU. cbv zeta in HU.
  assert (Hgoal : position_sample_count st' = position_sample_count (fetched st)
                  /\ av st' = av (fetched st)).
  { destruct (frame_empty (fetched st)).
    - destruct HU as [[m HU]|[e HU]]; [|discriminate].
      injection HU as _ <-. split; reflexivity.
    - destruct (0 <? transfer_count (fetched st)).
      + match type of HU with context [fst ?w =? ?n] =>
          destruct (fst w =? n) end.
        * destruct HU as [[m HU]|[e HU]]; [|discriminate].
          injection HU as _ <-.
          unfold advanced.
          match goal with |- context [if ?c then _ else _] => destruct c end;
            split; reflexivity.
        * destruct HU as [[m HU]|[e HU]]; [discriminate|].
          injection HU as _ <-. split; reflexivity.
      + destruct HU as [[m HU]|[e HU]]; [|discriminate].
        injection HU as _ <-. split; reflexivity. }
  destruct Hgoal as [H1 H2]. split; [congruence|].
  intros Hne. rewrite H2, (Hfe Hne). reflexivity.
Qed.

Lemma fetched_nonempty_id (st : State) :
  frame_ok st -> frame st <> [] -> fetched st = st.
Proof.
  intros Hf Hne. unfold fetched.
  destruct (FrameFinished st) eqn:E; [|reflexivity].
  apply (frame_ok_finished st Hf) in E. contradiction.
Qed.

Lemma fetched_empty_eq (st : State) :
  frame_ok st -> frame st = [] ->
  fetched st
  = set_frame_iterator 0
      (set_frame (fst (Decode (av st))) (set_av (snd (Decode (av st))) st)).
Proof.
  intros Hf He. unfold fetched.
  destruct (FrameFinished st) eqn:E; [reflexivity|].
  apply (frame_ok_finished st Hf) in He. congruence.
Qed.

(** X5.  With no free space in the ring buffer [Update] writes nothing
    and does not throw: ring buffer and play position stay as they are, a
    frame in progress stays where it is, and with no frame at hand the
    next frame is fetched and kept whole for a later call. *)
Theorem Update_with_full_ring_buffer (st : State) :
  engine_ok st ->
  RingBufferWriteCapacity st <= 0 ->
  exists more st',
    Update st = Ok more st'
    /\ ring_buf st' = ring_buf st
    /\ position_sample_count st' = position_sample_count st
    /\ (frame st <> [] ->
        more = true /\ frame st' = frame st
        /\ frame_iterator st' = frame_iterator st)
    /\ (frame st = [] ->
        frame st' = fst (Decode (av st)) /\ frame_iterator st' = 0
        /\ more = negb (frame_empty st')).
Proof.
  intros Hok Hc. rewrite (Update_eq st Hok). cbv zeta.
  destruct Hok as [_ [_ Hf]].
  assert (Hr : ring_buf (fetched st) = ring_buf st
               /\ position_sample_count (fetched st) = position_sample_count st).
  { unfold fetched. destruct (FrameFinished st); destruct st; split; reflexivity. }
  destruct Hr as [Hr Hp].
  assert (Hn : (0 <? transfer_count (fetched st)) = false).
  { apply Z.ltb_ge. unfold transfer_count, RingBufferWriteCapacity in *.
    rewrite Hr. lia. }
  destruct (frame_empty (fetched st)) eqn:E.
  - eexists _, _. split; [reflexivity|]. simpl.
    split; [exact Hr|]. split; [exact Hp|].
    apply frame_empty_true in E. split.
    + intros Hne. rewrite (fetched_nonempty_id st Hf Hne) in E. contradiction.
    + intros He. rewrite (fetched_empty_eq st Hf He) in *. simpl in *.
      unfold frame_empty. simpl. rewrite E. repeat split.
  - rewrite Hn. eexists _, _. split; [reflexivity|]. simpl.
    split; [exact Hr|]. split; [exact Hp|]. split.
    + intros Hne. rewrite (fetched_nonempty_id st Hf Hne). repeat split.
    + intros He. rewrite (fetched_empty_eq st Hf He) in *. simpl.
      unfold frame_empty in *. simpl in *. rewrite E. repeat split.
Qed.

(** X6.  When [Update] throws the ring buffer write error (a short
    [Write]), nothing of the frame was consumed: the frame at hand (the
    one just fetched if there was none) is kept with its iterator where
    it was, and the stream-ended flag and the play position are as
    before.  (Errors raised inside the decoder are outside the model.) *)
Theorem Update_throw_consumes_nothing (st st' : State) :
  engine_ok st ->
  Update st = Throw (InternalError MSG_OUTPUT_RINGWRITE) st' ->
  frame st' = (if frame_empty st then fst (Decode (av st)) else frame st)
  /\ frame st' <> []
  /\ frame_iterator st' = frame_iterator st
  /\ file_ended st' = file_ended st
  /\ position_sample_count st' = position_sample_count st.
Proof.
  intros Hok HU. rewrite (Update_eq st Hok) in HU. cbv zeta in HU.
  destruct Hok as [_ [_ Hf]].
  destruct (frame_empty (fetched st)) eqn:E; [discriminate|].
  destruct (0 <? transfer_count (fetched st)); [|discriminate].
  match type of HU with context [fst ?w =? ?n] =>
    destruct (fst w =? n); [discriminate|] end.
  injection HU as <-. simpl.
  apply frame_empty_false in E.
  destruct (frame_empty st) eqn:E0.
  - apply frame_empty_true in E0.
    rewrite (fetched_empty_eq st Hf E0) in *. simpl in *.
    destruct Hf as [[_ Hi]|Hi];
      [|unfold frame_end in Hi; rewrite E0 in Hi; simpl in Hi; lia].
    repeat split; try assumption. now rewrite Hi.
  - apply frame_empty_false in E0.
    rewrite (fetched_nonempty_id st Hf E0) in *. repeat split; assumption.
Qed.

(** In the model, where the decoder does not fail, [Update] over a ring
    buffer that keeps its contract returns, having moved some count of
    samples into the ring buffer. *)
Lemma Update_moves_samples {RL : RingBufferLaws R} (st : State) :
  engine_ok st ->
  exists more st' n,
    Update st = Ok more st'
    /\ 0 <= n <= WriteCapacity (ring_buf st)
    /\ ReadCapacity (ring_buf st') = ReadCapacity (ring_buf st) + n
    /\ WriteCapacity (ring_buf st') = WriteCapacity (ring_buf st) - n.
Proof.
  intros Hok. rewrite (Update_eq st Hok). cbv zeta.
  assert (Hr : ring_buf (fetched st) = ring_buf st).
  { unfold fetched. destruct (FrameFinished st); destruct st; reflexivity. }
  pose proof (WriteCapacity_nonneg (ring_buf st)) as Hw0.
  destruct (frame_empty (fetched st)).
  - exists false, (set_file_ended true (fetched st)), 0. simpl. rewrite Hr.
    split; [reflexivity|]. split; [lia|]. split; lia.
  - destruct (0 <? transfer_count (fetched st)) eqn:C.
    + apply Z.ltb_lt in C.
      assert (Hn : 0 < transfer_count (fetched st)
                   <= WriteCapacity (ring_buf (fetched st)))
        by (unfold transfer_count in *; lia).
      rewrite Write_full by exact Hn. rewrite Z.eqb_refl.
      eexists true, _, (transfer_count (fetched st)).
      split; [reflexivity|].
      match goal with |- context [advanced ?n ?s] =>
        pose proof (advanced_fields n s) as [_ Hrb] end.
      simpl. rewrite Hrb. simpl.
      rewrite Write_WriteCapacity, Write_ReadCapacity by lia.
      rewrite Write_full by exact Hn. rewrite <- Hr. split; [lia|]. split; lia.
    + exists true, (set_file_ended false (fetched st)), 0. simpl. rewrite Hr.
      split; [reflexivity|]. split; [lia|]. split; lia.
Qed.

(** X7.  Over a ring buffer that keeps its contract, an [Update] that
    returns has moved samples one way only: the read capacity has grown
    by exactly what the write capacity has shrunk, a count between zero
    and the free space found. *)
Theorem Update_conserves_capacity {RL : RingBufferLaws R} (st st' : State)
        (more : bool) :
  engine_ok st ->
  Update st = Ok more st' ->
  exists n,
    0 <= n <= WriteCapacity (ring_buf st)
    /\ ReadCapacity (ring_buf st') = ReadCapacity (ring_buf st) + n
    /\ WriteCapacity (ring_buf st') = WriteCapacity (ring_buf st) - n.
Proof.
  intros Hok HU.
  destruct (Update_moves_samples st Hok) as [m [s [n [H1 H2]]]].
  rewrite HU in H1. injection H1 as _ <-. exists n. exact H2.
Qed.

(** X8.  With no frame at hand, a decoder whose next frame holds [k]
    whole samples and a ring buffer that keeps its contract and has free
    space, one [Update] fetches the frame and writes the smaller of [k]
    and the free space: the read capacity grows by that much; the frame
    is gone if it fitted, otherwise it is kept with its iterator after
    the bytes written.  The stream is not marked as ended. *)
Theorem Update_writes_what_fits {RL : RingBufferLaws R} (st : State) (k : Z) :
  engine_ok st ->
  frame st = [] ->
  0 < k ->
  Z.of_nat (length (fst (Decode (av st)))) = k * bytes_per_sample (av st) ->
  0 < WriteCapacity (ring_buf st) ->
  exists st',
    Update st = Ok true st'
    /\ ReadCapacity (ring_buf st')
       = ReadCapacity (ring_buf st) + Z.min k (WriteCapacity (ring_buf st))
    /\ WriteCapacity (ring_buf st')
       = WriteCapacity (ring_buf st) - Z.min k (WriteCapacity (ring_buf st))
    /\ file_ended st' = false
    /\ (if k <=? WriteCapacity (ring_buf st)
        then frame st' = [] /\ frame_iterator st' = 0
        else frame st' = fst (Decode (av st))
             /\ frame_iterator st'
                = WriteCapacity (ring_buf st) * bytes_per_sample (av st)).
Proof.
  intros Hok He Hk Hlen Hc.
  rewrite (Update_eq st Hok). cbv zeta.
  destruct Hok as [[Hb _] [_ Hf]].
  rewrite (fetched_empty_eq st Hf He).
  set (st1 := set_frame_iterator 0
                (set_frame (fst (Decode (av st)))
                           (set_av (snd (Decode (av st))) st))).
  assert (Hb1 : bytes_per_sample (av st1) = bytes_per_sample (av st))
    by (destruct st; reflexivity).
  assert (Hr1 : ring_buf st1 = ring_buf st) by (destruct st; reflexivity).
  assert (Hf1 : frame st1 = fst (Decode (av st))) by (destruct st; reflexivity).
  assert (Hi1 : frame_iterator st1 = 0) by (destruct st; reflexivity).
  assert (He1 : frame_end st1 = k * bytes_per_sample (av st))
    by (unfold frame_end; rewrite Hf1; exact Hlen).
  assert (E : frame_empty st1 = false).
  { apply frame_empty_false. rewrite Hf1. intros H0. rewrite H0 in Hlen.
    simpl in Hlen. nia. }
  rewrite E.
  assert (Hn : transfer_count st1 = Z.min k (WriteCapacity (ring_buf st))).
  { unfold transfer_count. rewrite He1, Hi1, Hb1, Hr1, Z.sub_0_r.
    rewrite Z.div_mul by lia. reflexivity. }
  rewrite Hn.
  replace (0 <? Z.min k (WriteCapacity (ring_buf st))) with true
    by (symmetry; apply Z.ltb_lt; lia).
  rewrite Hr1.
  rewrite Write_full by lia. rewrite Z.eqb_refl.
  eexists. split; [reflexivity|].
  set (w := Write (ring_buf st) (write_source st1)
                  (Z.min k (WriteCapacity (ring_buf st)))).
  pose proof (advanced_fields (Z.min k (WriteCapacity (ring_buf st)))
                              (set_ring_buf (snd w) st1)) as [_ Hrb].
  simpl. rewrite Hrb. simpl. unfold w.
  rewrite Write_WriteCapacity, Write_ReadCapacity by lia.
  rewrite Write_full by lia.
  split; [reflexivity|]. split; [reflexivity|]. split; [reflexivity|].
  unfold advanced.
  change (frame_end (set_ring_buf (snd (Write (ring_buf st) (write_source st1)
            (Z.min k (WriteCapacity (ring_buf st))))) st1))
    with (frame_end st1).
  change (frame_iterator (set_ring_buf (snd (Write (ring_buf st)
            (write_source st1) (Z.min k (WriteCapacity (ring_buf st))))) st1))
    with (frame_iterator st1).
  change (av (set_ring_buf (snd (Write (ring_buf st) (write_source st1)
            (Z.min k (WriteCapacity (ring_buf st))))) st1))
    with (av st1).
  rewrite He1, Hi1, Hb1.
  destruct (k <=? WriteCapacity (ring_buf st)) eqn:C.
  - apply Z.leb_le in C. rewrite Z.min_l by lia.
    rewrite Z.leb_refl. destruct st; split; reflexivity.
  - apply Z.leb_gt in C. rewrite Z.min_r by lia.
    replace (k * bytes_per_sample (av st)
             <=? 0 + WriteCapacity (ring_buf st) * bytes_per_sample (av st))
      with false by (symmetry; apply Z.leb_gt; nia).
    destruct st; split; reflexivity.
Qed.

(** X9.  Over a decoder whose frames are made of whole samples, what is
    left of the frame is a whole number of samples in every reachable
    state: the iterator only ever moves by whole samples. *)
Theorem reachable_frame_holds_whole_samples (st : State) :
  reachable st ->
  frames_whole (av st) ->
  (frame_end st - frame_iterator st) mod bytes_per_sample (av st) = 0.
Proof.
  intros Hr Hw. destruct (reachable_spinup_ok st Hr Hw) as [_ [_ Ha]].
  exact Ha.
Qed.

(** X18.  The first [Update] after a seek, over a ring buffer that keeps
    its contract, works on the frame the repositioned decoder yields: it
    reports exhaustion (and marks the stream as ended) exactly when that
    frame is empty, and the frame held afterwards is that frame or none,
    never the frame that was in progress before the seek. *)
Theorem Seek_then_Update_fetches_anew {RL : RingBufferLaws R} (t : Z)
        (st : State) :
  engine_ok st ->
  let f := fst (Decode (DecoderSeekToPositionMicroseconds (av st) t)) in
  exists more st',
    Update (SeekToPositionMicroseconds t st) = Ok more st'
    /\ more = negb (match f with [] => true | _ :: _ => false end)
    /\ FileEnded st' = negb more
    /\ (frame st' = [] \/ frame st' = f).
Proof.
  intros [Hd _] f.
  set (st1 := SeekToPositionMicroseconds t st).
  assert (Hok1 : engine_ok st1).
  { unfold st1, SeekToPositionMicroseconds. cbv zeta.
    match goal with |- engine_ok (set_ring_buf ?r (ClearFrame ?s)) =>
      apply (engine_ok_ext (ClearFrame s)); try reflexivity;
      apply ClearFrame_engine_ok end.
    destruct st; exact Hd. }
  assert (Hf1 : fetched st1
                = set_frame_iterator 0
                    (set_frame (fst (Decode (av st1)))
                               (set_av (snd (Decode (av st1))) st1))).
  { apply fetched_empty_eq; [apply Hok1|reflexivity]. }
  assert (Hav : av st1 = DecoderSeekToPositionMicroseconds (av st) t)
    by reflexivity.
  rewrite (Update_eq st1 Hok1). cbv zeta. rewrite Hf1.
  set (st2 := set_frame_iterator 0
                (set_frame (fst (Decode (av st1)))
                           (set_av (snd (Decode (av st1))) st1))).
  assert (Hfr : frame st2 = f) by reflexivity.
  unfold frame_empty at 1. rewrite Hfr.
  destruct f as [|b f'] eqn:Ef.
  - eexists _, _. split; [reflexivity|]. simpl.
    split; [reflexivity|]. split; [reflexivity|]. now left.
  - destruct (0 <? transfer_count st2) eqn:C.
    + apply Z.ltb_lt in C.
      rewrite Write_full by (unfold transfer_count in *; lia).
      rewrite Z.eqb_refl. eexists _, _. split; [reflexivity|]. simpl.
      split; [reflexivity|]. split; [reflexivity|].
      unfold advanced.
      match goal with |- context [if ?c then _ else _] => destruct c end;
        [left|right]; simpl; [reflexivity|exact Hfr].
    + eexists _, _. split; [reflexivity|]. simpl.
      split; [reflexivity|]. split; [reflexivity|]. right. exact Hfr.
Qed.

End FillExtras.

(* ------------------------------------------------------------------ *)
(** ** Further properties of the drain side *)

Section DrainExtras.

Context {R : Type} `{RB : RingBuffer R}.

Abbreviation State := (AudioOutput R).

Lemma paCallbackLoop_S (fuel : nat) (sched : list nat) (cout n : Z)
      (result : PlayCallbackStepResult) (mem : Memory) (st : State) :
  paCallbackLoop (S fuel) sched cout n result mem st
  = if callback_continues n result
    then paCallbackLoop fuel (tl sched) cout n
           (fst (fst (PlayCallbackStep cout n result mem
                        (fill_context_runs (hd 0%nat sched) st))))
           (snd (fst (PlayCallbackStep cout n result mem
                        (fill_context_runs (hd 0%nat sched) st))))
           (snd (PlayCallbackStep cout n result mem
                   (fill_context_runs (hd 0%nat sched) st)))
    else Some (result, mem, st).
Proof.
  simpl. destruct (callback_continues n result); [|reflexivity].
  destruct (PlayCallbackStep cout n result mem
              (fill_context_runs (hd 0%nat sched) st)) as [[r m] s].
  reflexivity.
Qed.

Lemma paCallbackLoop_stopped (fuel : nat) (sched : list nat) (cout n : Z)
      (result : PlayCallbackStepResult) (mem : Memory) (st : State) :
  callback_continues n result = false ->
  paCallbackLoop fuel sched cout n result mem st = Some (result, mem, st).
Proof.
  intros H. destruct fuel; simpl; rewrite H; reflexivity.
Qed.

Lemma callback_continues_spec (n k : Z) :
  callback_continues n (paContinue, k) = (k <? n).
Proof. reflexivity. Qed.

Lemma drain_request_bounds {RL : RingBufferLaws R} (n k : Z) (st : State) :
  0 <= k < n -> n < two64 ->
  ReadCapacity (ring_buf st) <> 0 ->
  1 <= drain_request n (paContinue, k) st <= n - k.
Proof.
  intros Hk Hn Hne. unfold drain_request. simpl.
  pose proof (ReadCapacity_nonneg (ring_buf st)).
  rewrite wrap64_small by lia.
  unfold LONG_MAX. lia.
Qed.

Lemma paCallbackLoopRacing_stopped (fuel : nat) (sched : list (nat * nat))
      (cout n : Z) (result : PlayCallbackStepResult) (mem : Memory)
      (st : State) :
  callback_continues n result = false ->
  paCallbackLoopRacing fuel sched cout n result mem st
  = Some (result, mem, st).
Proof.
  intros H. destruct fuel; simpl; rewrite H; reflexivity.
Qed.

(** With nothing run inside the steps the finer loop is the loop of
    [paCallbackFun]. *)
Lemma paCallbackLoopRacing_between_steps (fuel : nat) :
  forall (sched : list nat) (cout n : Z) (result : PlayCallbackStepResult)
         (mem : Memory) (st : State),
    paCallbackLoopRacing fuel (map (fun b => (b, 0%nat)) sched) cout n
                         result mem st
    = paCallbackLoop fuel sched cout n result mem st.
Proof.
  induction fuel as [|fuel IH]; intros sched cout n result mem st;
    [reflexivity|].
  simpl. destruct (callback_continues n result); [|reflexivity].
  assert (Hhd : hd (0%nat, 0%nat) (map (fun b => (b, 0%nat)) sched)
                = (hd 0%nat sched, 0%nat)) by (destruct sched; reflexivity).
  assert (Htl : tl (map (fun b : nat => (b, 0%nat)) sched)
                = map (fun b => (b, 0%nat)) (tl sched))
    by (destruct sched; reflexivity).
  rewrite Hhd, Htl. simpl fst. simpl snd.
  change (PlayCallbackStepRacing 0 cout n result mem
            (fill_context_runs (hd 0%nat sched) st))
    with (PlayCallbackStep cout n result mem
            (fill_context_runs (hd 0%nat sched) st)).
  destruct (PlayCallbackStep cout n result mem
              (fill_context_runs (hd 0%nat sched) st)) as [[r m] s].
  apply IH.
Qed.

(** What one step can return, whatever runs inside it. *)
Lemma PlayCallbackStepRacing_cases {RL : RingBufferLaws R} (mid : nat)
      (out n k : Z) (mem : Memory) (st : State) :
  0 <= k < n -> n < two64 ->
  let step := PlayCallbackStepRacing mid out n (paContinue, k) mem st in
  (fst (fst step) = (paComplete, k) /\ FileEnded (snd step) = true)
  \/ fst (fst step) = (paContinue, n)
  \/ exists d, 1 <= d <= n - k /\ fst (fst step) = (paContinue, k + d).
Proof.
  intros Hk Hn. cbv zeta. unfold PlayCallbackStepRacing.
  pose proof (ReadCapacity_nonneg (ring_buf st)) as Ha.
  destruct (ReadCapacity (ring_buf st) =? 0) eqn:E.
  - unfold PlayCallbackFailure.
    destruct (FileEnded (fill_context_runs mid st)) eqn:F; simpl.
    + left. split; [reflexivity|exact F].
    + right. left. reflexivity.
  - apply Z.eqb_neq in E. right. right.
    unfold PlayCallbackSuccess, ReadSamplesToOutput. simpl snd.
    match goal with |- context [Read ?r ?q] =>
      destruct (Read r q) as [[data cnt] r'] end.
    simpl.
    exists (Z.min (Z.min (ReadCapacity (ring_buf st)) (wrap64 (n - k)))
                  LONG_MAX).
    rewrite (wrap64_small (n - k)) by lia.
    assert (HL : 1 <= LONG_MAX) by (unfold LONG_MAX; lia).
    split; [lia|].
    rewrite wrap64_small by lia. reflexivity.
Qed.

Lemma paCallbackLoopRacing_terminates {RL : RingBufferLaws R} (cout n : Z) :
  0 <= n < two64 ->
  forall (fuel : nat) (sched : list (nat * nat)) (k : Z) (mem : Memory)
         (st : State),
    0 <= k <= n ->
    (Z.to_nat (n - k) <= fuel)%nat ->
    exists result mem' st',
      paCallbackLoopRacing fuel sched cout n (paContinue, k) mem st
      = Some (result, mem', st')
      /\ ((fst result = paContinue /\ snd result = n)
          \/ (fst result = paComplete /\ k <= snd result < n
              /\ FileEnded st' = true)).
Proof.
  intros Hn. induction fuel as [|fuel IH]; intros sched k mem st Hk Hfuel.
  - assert (k = n) by lia. subst k.
    rewrite paCallbackLoopRacing_stopped
      by (rewrite callback_continues_spec; apply Z.ltb_irrefl).
    eexists _, _, _. split; [reflexivity|]. left. split; reflexivity.
  - simpl. rewrite callback_continues_spec.
    destruct (k <? n) eqn:C.
    + apply Z.ltb_lt in C.
      pose proof (PlayCallbackStepRacing_cases
                    (snd (hd (0%nat, 0%nat) sched)) cout n k mem
                    (fill_context_runs (fst (hd (0%nat, 0%nat) sched)) st)
                    (conj (proj1 Hk) C) (proj2 Hn)) as Hs.
      cbv zeta in Hs.
      destruct (PlayCallbackStepRacing (snd (hd (0%nat, 0%nat) sched))
                  cout n (paContinue, k) mem
                  (fill_context_runs (fst (hd (0%nat, 0%nat) sched)) st))
        as [[r m] s].
      simpl in Hs.
      destruct Hs as [[Hr He]|[Hr|[d [Hd Hr]]]]; subst r.
      * rewrite paCallbackLoopRacing_stopped by reflexivity.
        eexists _, _, _. split; [reflexivity|]. right. simpl.
        split; [reflexivity|]. split; [lia|exact He].
      * rewrite paCallbackLoopRacing_stopped
          by (rewrite callback_continues_spec; apply Z.ltb_irrefl).
        eexists _, _, _. split; [reflexivity|]. left. split; reflexivity.
      * destruct (IH (tl sched) (k + d) m s) as [r [m' [s' [H1 H2]]]];
          [lia|lia|].
        exists r, m', s'. split; [exact H1|].
        destruct H2 as [H2|[H2 [H3 H4]]]; [now left|right].
        split; [exact H2|]. split; [lia|exact H4].
    + apply Z.ltb_ge in C. assert (k = n) by lia. subst k.
      eexists _, _, _. split; [reflexivity|]. left. split; reflexivity.
Qed.

(** X10.  Over a ring buffer that keeps its contract (of which only
    "capacities are never negative" is used) the callback ends within
    [frames_per_buf] steps, whatever the fill context does before each
    step and, inside a step, between the reading of [ReadCapacity()] and
    the test of [FileEnded()] or the call of [Read].  It never returns
    "abort": either it returns "continue" with exactly [frames_per_buf]
    counted as supplied, or "complete" with fewer, the stream-ended flag
    being set. *)
Theorem paCallbackFun_ends {RL : RingBufferLaws R}
        (sched : list (nat * nat)) (out n : Z) (mem : Memory) (st : State) :
  0 <= n < two64 ->
  exists result mem' st',
    paCallbackFunRacing sched out n mem st = Some (result, mem', st')
    /\ ((fst result = paContinue /\ snd result = n)
        \/ (fst result = paComplete /\ 0 <= snd result < n
            /\ FileEnded st' = true)).
Proof.
  intros Hn. unfold paCallbackFunRacing.
  apply (paCallbackLoopRacing_terminates out n Hn); [lia|].
  rewrite Z.sub_0_r. lia.
Qed.

Lemma paCallbackLoop_alone_fill_fields (fuel : nat) :
  forall (cout n : Z) (result : PlayCallbackStepResult) (mem : Memory)
         (st : State) res,
    paCallbackLoop fuel [] cout n result mem st = Some res ->
    av (snd res) = av st /\ frame (snd res) = frame st
    /\ frame_iterator (snd res) = frame_iterator st
    /\ file_ended (snd res) = file_ended st.
Proof.
  induction fuel as [|fuel IH]; intros cout n result mem st res.
  - simpl. destruct (callback_continues n result); [discriminate|].
    intros [= <-]. simpl. tauto.
  - rewrite paCallbackLoop_S.
    destruct (callback_continues n result);
      [|intros [= <-]; simpl; tauto].
    simpl hd. simpl tl. unfold fill_context_runs at 1 2 3. simpl Nat.iter.
    intros H. apply IH in H.
    pose proof (PlayCallbackStep_fill_fields cout n result mem st) as Hs.
    cbv zeta in Hs.
    destruct H as [H1 [H2 [H3 H4]]], Hs as [S1 [S2 [S3 S4]]].
    repeat split; congruence.
Qed.

(** X11.  A callback that runs alone writes only the ring buffer and the
    play position of the engine: decoder, frame, frame iterator and
    stream-ended flag are as before, for any ring buffer. *)
Theorem paCallbackFun_alone_keeps_fill_state (out n : Z) (mem mem' : Memory)
        (st st' : State) (result : PlayCallbackStepResult) :
  paCallbackFun [] out n mem st = Some (result, mem', st') ->
  av st' = av st /\ frame st' = frame st
  /\ frame_iterator st' = frame_iterator st
  /\ file_ended st' = file_ended st.
Proof.
  unfold paCallbackFun. intros H.
  apply (paCallbackLoop_alone_fill_fields _ _ _ _ _ _ _ H).
Qed.

Lemma paCallbackFun_underrun (out n : Z) (mem : Memory) (st : State) :
  0 < n ->
  ReadCapacity (ring_buf st) = 0 ->
  FileEnded st = false ->
  paCallbackFun [] out n mem st
  = Some ((paContinue, n),
          memset mem out Byte.x00 (ByteCountForSampleCount st n), st).
Proof.
  intros Hn Hr He. unfold paCallbackFun.
  destruct (Z.to_nat n) as [|fuel] eqn:F; [lia|].
  rewrite paCallbackLoop_S, callback_continues_spec.
  replace (0 <? n) with true by (symmetry; apply Z.ltb_lt; lia).
  simpl hd. simpl tl. unfold fill_context_runs. simpl Nat.iter.
  rewrite (PlayCallbackStep_underrun out n (paContinue, 0) mem st Hr).
  rewrite He. simpl.
  apply paCallbackLoop_stopped.
  rewrite callback_continues_spec. apply Z.ltb_irrefl.
Qed.

(** X12.  Underrun from the start: with nothing to read and the stream
    not ended, a callback for [n > 0] frames returns "continue" with [n]
    supplied; the bytes of [n] samples from the start of the buffer are
    zero, every other byte of memory is as before, and the engine, its
    play position included, is unchanged. *)
Theorem paCallbackFun_underrun_is_silence (out n : Z) (mem : Memory)
        (st : State) :
  0 < n ->
  ReadCapacity (ring_buf st) = 0 ->
  FileEnded st = false ->
  exists mem',
    paCallbackFun [] out n mem st = Some ((paContinue, n), mem', st)
    /\ (forall a, out <= a < out + ByteCountForSampleCount st n ->
                  mem' a = Byte.x00)
    /\ (forall a, ~ (out <= a < out + ByteCountForSampleCount st n) ->
                  mem' a = mem a).
Proof.
  intros Hn Hr He. eexists. split; [apply paCallbackFun_underrun; assumption|].
  unfold memset. split; intros a Ha.
  - replace (out <=? a) with true by (symmetry; apply Z.leb_le; lia).
    replace (a <? out + ByteCountForSampleCount st n) with true
      by (symmetry; apply Z.ltb_lt; lia).
    reflexivity.
  - destruct (out <=? a) eqn:E1; [|reflexivity].
    destruct (a <? out + ByteCountForSampleCount st n) eqn:E2; [|reflexivity].
    apply Z.leb_le in E1. apply Z.ltb_lt in E2. lia.
Qed.

(** X13.  After a seek, over a ring buffer that keeps its contract, a
    callback that runs before the fill side does supplies silence and
    returns "continue", even if the stream had ended before the seek;
    the engine stays as the seek left it, the play position at the
    sample count of the target time. *)
Theorem Seek_then_callback_is_silence {RL : RingBufferLaws R} (t out n : Z)
        (mem : Memory) (st : State) :
  0 < n ->
  let st1 := SeekToPositionMicroseconds t st in
  paCallbackFun [] out n mem st1
  = Some ((paContinue, n),
          memset mem out Byte.x00 (ByteCountForSampleCount st1 n), st1)
  /\ position_sample_count st1 = SampleCountForPositionMicroseconds (av st1) t.
Proof.
  intros Hn st1. split; [|reflexivity].
  apply paCallbackFun_underrun; [exact Hn| |reflexivity].
  unfold st1, SeekToPositionMicroseconds. cbv zeta. simpl.
  apply Flush_ReadCapacity.
Qed.

(** The whole effect of a callback that runs alone, over a ring buffer
    that keeps its contract. *)
Lemma paCallbackFun_alone_eq {RL : RingBufferLaws R} (out n : Z)
      (mem : Memory) (st : State) :
  0 < n <= LONG_MAX ->
  let a := ReadCapacity (ring_buf st) in
  let rd := Read (ring_buf st) (Z.min n a) in
  let drained :=
    set_position_sample_count
      (wrap64 (position_sample_count st + Z.min n a))
      (set_ring_buf (snd rd) st) in
  paCallbackFun [] out n mem st
  = Some
      (if a =? 0 then
         if FileEnded st then ((paComplete, 0), mem, st)
         else ((paContinue, n),
               memset mem out Byte.x00 (ByteCountForSampleCount st n), st)
       else if n <=? a then
         ((paContinue, n), store mem out (fst (fst rd)), drained)
       else if FileEnded st then
         ((paComplete, a), store mem out (fst (fst rd)), drained)
       else
         ((paContinue, n),
          memset (store mem out (fst (fst rd))) out Byte.x00
                 (ByteCountForSampleCount st n),
          drained)).
Proof.
  intros Hn a rd drained.
  pose proof (ReadCapacity_nonneg (ring_buf st)) as Ha. fold a in Ha.
  assert (HL : LONG_MAX < two64) by reflexivity.
  unfold paCallbackFun.
  destruct (Z.to_nat n) as [|fuel] eqn:F; [lia|].
  rewrite paCallbackLoop_S, callback_continues_spec.
  replace (0 <? n) with true by (symmetry; apply Z.ltb_lt; lia).
  simpl hd. simpl tl. unfold fill_context_runs at 1 2 3. simpl Nat.iter.
  destruct (a =? 0) eqn:E.
  - apply Z.eqb_eq in E.
    rewrite (PlayCallbackStep_underrun out n (paContinue, 0) mem st E).
    destruct (FileEnded st); simpl.
    + apply paCallbackLoop_stopped. reflexivity.
    + apply paCallbackLoop_stopped.
      rewrite callback_continues_spec. apply Z.ltb_irrefl.
  - apply Z.eqb_neq in E.
    rewrite (PlayCallbackStep_drain out n (paContinue, 0) mem st E).
    assert (Hreq : drain_request n (paContinue, 0) st = Z.min n a).
    { unfold drain_request. simpl. fold a.
      rewrite Z.sub_0_r, wrap64_small by lia. lia. }
    unfold drain_data. rewrite Hreq. simpl. fold rd. fold drained.
    assert (Hr' : ReadCapacity (ring_buf drained) = a - Z.min n a).
    { unfold drained, rd. simpl. rewrite Read_ReadCapacity by lia.
      rewrite Read_full by (fold a; lia). reflexivity. }
    rewrite wrap64_small by lia.
    destruct (n <=? a) eqn:C.
    + apply Z.leb_le in C. rewrite Z.min_l by lia.
      apply paCallbackLoop_stopped.
      rewrite callback_continues_spec. apply Z.ltb_irrefl.
    + apply Z.leb_gt in C. rewrite Z.min_r in Hr' |- * by lia.
      destruct fuel as [|fuel]; [lia|].
      rewrite paCallbackLoop_S, callback_continues_spec.
      replace (a <? n) with true by (symmetry; apply Z.ltb_lt; lia).
      simpl hd. simpl tl. unfold fill_context_runs at 1 2 3. simpl Nat.iter.
      rewrite PlayCallbackStep_underrun by lia.
      change (FileEnded drained) with (FileEnded st).
      change (ByteCountForSampleCount drained n)
        with (ByteCountForSampleCount st n).
      destruct (FileEnded st); simpl.
      * apply paCallbackLoop_stopped. reflexivity.
      * apply paCallbackLoop_stopped.
        rewrite callback_continues_spec. apply Z.ltb_irrefl.
Qed.

(** X14.  A callback that runs alone for [n] frames ([0 < n <= LONG_MAX])
    over a ring buffer that keeps its contract takes [min n a] samples
    out of it, [a] being the read capacity it finds, and moves the play
    position by that count, modulo 2^64.  It returns "continue" with [n]
    supplied when the ring buffer had enough, or when it had not and the
    stream is not ended; it returns "complete" with [a] supplied when
    the ring buffer had fewer than [n] and the stream is ended. *)
Theorem paCallbackFun_alone {RL : RingBufferLaws R} (out n : Z)
        (mem : Memory) (st : State) :
  0 < n <= LONG_MAX ->
  0 <= position_sample_count st < two64 ->
  let a := ReadCapacity (ring_buf st) in
  exists result mem' st',
    paCallbackFun [] out n mem st = Some (result, mem', st')
    /\ result = (if n <=? a then (paContinue, n)
                 else if FileEnded st then (paComplete, a)
                      else (paContinue, n))
    /\ position_sample_count st'
       = wrap64 (position_sample_count st + Z.min n a)
    /\ ReadCapacity (ring_buf st') = a - Z.min n a.
Proof.
  intros Hn Hp a.
  pose proof (ReadCapacity_nonneg (ring_buf st)) as Ha. fold a in Ha.
  rewrite (paCallbackFun_alone_eq out n mem st Hn). cbv zeta. fold a.
  assert (Hrc : ReadCapacity (snd (Read (ring_buf st) (Z.min n a)))
                = a - Z.min n a).
  { rewrite Read_ReadCapacity by lia.
    rewrite Read_full by (fold a; lia). reflexivity. }
  destruct (a =? 0) eqn:E.
  - apply Z.eqb_eq in E.
    replace (n <=? a) with false by (symmetry; apply Z.leb_gt; lia).
    rewrite E, Z.min_r, Z.add_0_r, Z.sub_0_r, wrap64_small by lia.
    destruct (FileEnded st); eexists _, _, _;
      (split; [reflexivity|]); repeat split; fold a; exact E.
  - destruct (n <=? a); [|destruct (FileEnded st)];
      eexists _, _, _; (split; [reflexivity|]); simpl;
      (split; [reflexivity|]); (split; [reflexivity|]); exact Hrc.
Qed.

(** X17.  A callback that runs alone over a ring buffer that keeps its
    contract, and whose [Read] copies no more bytes than [n] samples
    take, writes no byte of memory outside the [n] frames of the
    driver's buffer. *)
Theorem paCallbackFun_alone_writes_inside_buffer {RL : RingBufferLaws R}
        (out n : Z) (mem mem' : Memory) (st st' : State)
        (result : PlayCallbackStepResult) :
  0 < n <= LONG_MAX ->
  Z.of_nat (length (fst (fst (Read (ring_buf st)
                                   (Z.min n (ReadCapacity (ring_buf st)))))))
  <= ByteCountForSampleCount st n ->
  paCallbackFun [] out n mem st = Some (result, mem', st') ->
  forall a, ~ (out <= a < out + ByteCountForSampleCount st n) ->
            mem' a = mem a.
Proof.
  intros Hn Hlen HC a Ha.
  rewrite (paCallbackFun_alone_eq out n mem st Hn) in HC. cbv zeta in HC.
  assert (Hstore : forall data,
             Z.of_nat (length data) <= ByteCountForSampleCount st n ->
             store mem out data a = mem a).
  { intros data Hd. unfold store.
    destruct (out <=? a) eqn:E1; [|reflexivity].
    destruct (a <? out + Z.of_nat (length data)) eqn:E2; [|reflexivity].
    apply Z.leb_le in E1. apply Z.ltb_lt in E2. lia. }
  assert (Hset : forall m : Memory,
             memset m out Byte.x00 (ByteCountForSampleCount st n) a = m a).
  { intros m. unfold memset.
    destruct (out <=? a) eqn:E1; [|reflexivity].
    destruct (a <? out + ByteCountForSampleCount st n) eqn:E2; [|reflexivity].
    apply Z.leb_le in E1. apply Z.ltb_lt in E2. lia. }
  destruct (ReadCapacity (ring_buf st) =? 0).
  - destruct (FileEnded st); injection HC as _ <- _;
      [reflexivity|apply Hset].
  - destruct (n <=? ReadCapacity (ring_buf st));
      [|destruct (FileEnded st)]; injection HC as _ <- _.
    + now apply Hstore.
    + now apply Hstore.
    + rewrite Hset. now apply Hstore.
Qed.

End DrainExtras.

(* ------------------------------------------------------------------ *)
(** ** Further properties of spin-up *)

Section SpinupExtras.

Context {R : Type} `{RB : RingBuffer R} {RL : RingBufferLaws R}.

Abbreviation State := (AudioOutput R).

Variables RINGBUF_SIZE SPINUP_SIZE : Z.

(** What one returning [Update] does to the quantities spin-up and the
    callback share, over a ring buffer that keeps its contract. *)
Lemma Update_Ok_facts (st st' : State) (more : bool) :
  engine_ok st ->
  Update st = Ok more st' ->
  engine_ok st'
  /\ ReadCapacity (ring_buf st') + WriteCapacity (ring_buf st')
     = ReadCapacity (ring_buf st) + WriteCapacity (ring_buf st)
  /\ ReadCapacity (ring_buf st) <= ReadCapacity (ring_buf st')
  /\ position_sample_count st' = position_sample_count st
  /\ FileEnded st' = negb more.
Proof.
  intros Hok HU.
  pose proof (Update_engine_ok st Hok) as Hok'. rewrite HU in Hok'.
  split; [exact Hok'|].
  rewrite (Update_eq st Hok) in HU. cbv zeta in HU.
  assert (Hr : ring_buf (fetched st) = ring_buf st
               /\ position_sample_count (fetched st) = position_sample_count st).
  { unfold fetched. destruct (FrameFinished st); destruct st; split; reflexivity. }
  destruct Hr as [Hr Hp].
  destruct (frame_empty (fetched st)).
  - injection HU as <- <-. simpl. rewrite Hr, Hp. repeat split; lia.
  - destruct (0 <? transfer_count (fetched st)) eqn:C.
    + apply Z.ltb_lt in C.
      match type of HU with context [fst ?w =? ?n] =>
        destruct (fst w =? n) eqn:W; [|discriminate] end.
      apply Z.eqb_eq in W. injection HU as <- <-.
      match goal with |- context [advanced ?n ?s] =>
        pose proof (advanced_fields n s) as [_ Hrb] end.
      assert (Hpos : forall n (s : State),
                 position_sample_count (advanced n s) = position_sample_count s).
      { intros n s. unfold advanced.
        match goal with |- context [if ?c then _ else _] => destruct c end;
          destruct s; reflexivity. }
      simpl. rewrite Hrb, Hpos. simpl.
      rewrite Write_WriteCapacity, Write_ReadCapacity by lia.
      rewrite W, <- Hr, Hp. repeat split; lia.
    + injection HU as <- <-. simpl. rewrite Hr, Hp. repeat split; lia.
Qed.

Lemma PreFillLoop_post (fuel : nat) :
  forall (more : bool) (c : Z) (st : State) (more' : bool) (st' : State),
    engine_ok st ->
    (more = false -> FileEnded st = true) ->
    PreFillLoop RINGBUF_SIZE SPINUP_SIZE fuel more c st = Some (Ok more' st') ->
    ReadCapacity (ring_buf st') + WriteCapacity (ring_buf st')
    = ReadCapacity (ring_buf st) + WriteCapacity (ring_buf st)
    /\ ReadCapacity (ring_buf st) <= ReadCapacity (ring_buf st')
    /\ position_sample_count st' = position_sample_count st
    /\ (more' = false -> FileEnded st' = true).
Proof.
  induction fuel as [|fuel IH]; intros more c st more' st' Hok Hm; simpl;
    destruct (spinup_continues RINGBUF_SIZE SPINUP_SIZE more c);
    try discriminate;
    try (intros [= <- <-]; repeat split; [lia|exact Hm]).
  destruct (Update st) as [m s| |] eqn:HU; try discriminate.
  destruct (Update_Ok_facts st s m Hok HU) as [Hok' [H1 [H2 [H3 H4]]]].
  intros H. apply IH in H; [|exact Hok'|intros ->; exact H4].
  destruct H as [G1 [G2 [G3 G4]]].
  split; [lia|]. split; [lia|]. split; [congruence|exact G4].
Qed.

(** X15.  From a reachable state, over a decoder of whole samples and a
    ring buffer that keeps its contract and whose capacities add up to
    [RINGBUF_SIZE], with a threshold of at most [RINGBUF_SIZE]: spin-up
    returns; it leaves the play position alone and takes nothing out of
    the ring buffer, whose capacities still add up to [RINGBUF_SIZE];
    and on return either at least [SPINUP_SIZE] samples are there to
    read, or the stream is marked as ended. *)
Theorem PreFillRingBuffer_leaves_enough_to_read (st : State) :
  reachable st ->
  frames_whole (av st) ->
  0 <= SPINUP_SIZE <= RINGBUF_SIZE ->
  RINGBUF_SIZE < two64 ->
  ReadCapacity (ring_buf st) + WriteCapacity (ring_buf st) = RINGBUF_SIZE ->
  exists more st',
    PreFillRingBuffer RINGBUF_SIZE SPINUP_SIZE
                      (S (Z.to_nat (WriteCapacity (ring_buf st)))) st
    = Some (Ok more st')
    /\ ReadCapacity (ring_buf st') + WriteCapacity (ring_buf st') = RINGBUF_SIZE
    /\ ReadCapacity (ring_buf st) <= ReadCapacity (ring_buf st')
    /\ position_sample_count st' = position_sample_count st
    /\ (SPINUP_SIZE <= ReadCapacity (ring_buf st') \/ FileEnded st' = true).
Proof.
  intros Hr Hw Hsp Hrs Hsum.
  pose proof (reachable_spinup_ok st Hr Hw) as Hs.
  destruct (PreFillLoop_terminates RINGBUF_SIZE SPINUP_SIZE
              (S (Z.to_nat (WriteCapacity (ring_buf st)))) true st Hs)
    as [more [st' [H1 [H2 _]]]]; [lia|].
  exists more, st'. split; [exact H1|].
  destruct (PreFillLoop_post _ _ _ _ _ _ (proj1 Hs)
              (fun H : true = false => False_ind _ (diff_true_false H)) H1)
    as [G1 [G2 [G3 G4]]].
  split; [lia|]. split; [exact G2|]. split; [exact G3|].
  pose proof (WriteCapacity_nonneg (ring_buf st')) as Hc1.
  pose proof (ReadCapacity_nonneg (ring_buf st')) as Hc2.
  destruct more; [left|right; now apply G4].
  unfold spinup_continues in H2. simpl in H2.
  destruct (0 <? WriteCapacity (ring_buf st')) eqn:C; simpl in H2.
  - apply Z.ltb_ge in H2. rewrite wrap64_small in H2 by lia. lia.
  - apply Z.ltb_ge in C. lia.
Qed.

End SpinupExtras.

(* ------------------------------------------------------------------ *)
(** ** SAFE_FREE *)

(** X16.  Take a pointer variable at a non-null address outside freed
    memory, holding [NULL] or the first address of a live block, and
    lying outside every live block that starts there.  [SAFE_FREE] on it
    succeeds; afterwards the variable holds [NULL], no live block starts
    at the address it held, the other live blocks are as before, and a
    second [SAFE_FREE] on the same variable succeeds without changing
    anything: the block is not freed twice. *)
Theorem SAFE_FREE_twice (ptr : Z) (h : Cuppa.Heap) :
  ptr <> Cuppa.NULL ->
  Cuppa.accessible h ptr = true ->
  Cuppa.cells h ptr = Cuppa.NULL
  \/ (exists size, In (Cuppa.cells h ptr, size) (Cuppa.live h)) ->
  (forall size, In (Cuppa.cells h ptr, size) (Cuppa.live h) ->
                Cuppa.inside ptr (Cuppa.cells h ptr, size) = false) ->
  exists h',
    Cuppa.SAFE_FREE ptr h = Some h'
    /\ Cuppa.cells h' ptr = Cuppa.NULL
    /\ (Cuppa.cells h ptr <> Cuppa.NULL ->
        forall size, ~ In (Cuppa.cells h ptr, size) (Cuppa.live h'))
    /\ (forall blk, fst blk <> Cuppa.cells h ptr ->
                    (In blk (Cuppa.live h') <-> In blk (Cuppa.live h)))
    /\ Cuppa.SAFE_FREE ptr h' = Some h'.
Proof.
  intros Hp Hacc Hc Hout. unfold Cuppa.SAFE_FREE at 1.
  replace (ptr =? Cuppa.NULL) with false by (symmetry; now apply Z.eqb_neq).
  simpl negb. cbv iota.
  unfold Cuppa.load. rewrite Hacc.
  destruct (Cuppa.cells h ptr =? Cuppa.NULL) eqn:E.
  - apply Z.eqb_eq in E. simpl negb. cbv iota. exists h.
    split; [reflexivity|]. split; [exact E|].
    split; [intros H; now contradiction H|].
    split; [intros blk _; tauto|].
    unfold Cuppa.SAFE_FREE, Cuppa.load.
    replace (ptr =? Cuppa.NULL) with false by (symmetry; now apply Z.eqb_neq).
    rewrite Hacc, E. reflexivity.
  - apply Z.eqb_neq in E. simpl negb. cbv iota.
    destruct Hc as [Hc|[size Hc]]; [contradiction|].
    unfold Cuppa.free.
    replace (Cuppa.cells h ptr =? Cuppa.NULL) with false
      by (symmetry; now apply Z.eqb_neq).
    destruct (find (fun blk => fst blk =? Cuppa.cells h ptr) (Cuppa.live h))
      as [blk|] eqn:Hfind.
    2:{ exfalso.
        apply (find_none _ _ Hfind (Cuppa.cells h ptr, size)) in Hc.
        simpl in Hc. rewrite Z.eqb_refl in Hc. discriminate. }
    apply find_some in Hfind as [Hin Hfst]. apply Z.eqb_eq in Hfst.
    assert (Hblk : Cuppa.inside ptr blk = false).
    { destruct blk as [base sz]. simpl in Hfst. subst base.
      now apply Hout. }
    assert (Hacc' : Cuppa.accessible
                      (Cuppa.mkHeap (Cuppa.cells h)
                         (filter (fun b => negb (fst b =? Cuppa.cells h ptr))
                                 (Cuppa.live h))
                         (blk :: Cuppa.freed h)) ptr = true).
    { unfold Cuppa.accessible in *. simpl. rewrite Hblk. exact Hacc. }
    unfold Cuppa.store. rewrite Hacc'. simpl.
    eexists. split; [reflexivity|]. simpl.
    rewrite Z.eqb_refl. split; [reflexivity|].
    split.
    + intros _ sz Hin'. apply filter_In in Hin' as [_ Hin'].
      simpl in Hin'. rewrite Z.eqb_refl in Hin'. discriminate.
    + split.
      * intros b Hb. rewrite filter_In. split; [tauto|].
        intros Hin'. split; [exact Hin'|].
        apply negb_true_iff. now apply Z.eqb_neq.
      * unfold Cuppa.SAFE_FREE, Cuppa.load.
        replace (ptr =? Cuppa.NULL) with false
          by (symmetry; now apply Z.eqb_neq).
        simpl negb. cbv iota.
        unfold Cuppa.accessible in *. simpl. rewrite Hblk. simpl.
        rewrite Hacc. rewrite Z.eqb_refl. reflexivity.
Qed.

(** With the pointer variable inside the block it points to, the macro
    frees the block and then writes [NULL] into it: no defined
    behaviour. *)
Example SAFE_FREE_of_pointer_inside_its_block :
  Cuppa.SAFE_FREE 4096 Cuppa.self_heap = None.
Proof. reflexivity. Qed.

(* ------------------------------------------------------------------ *)
(** ** The further properties at work on the concrete engines *)

Lemma WorkedExample_small1_reachable : reachable WorkedExample.small1.
Proof.
  apply (reach_Update WorkedExample.small0 WorkedExample.small1 true).
  - apply reach_new, WorkedExample_decoder_ok.
  - vm_compute; reflexivity.
Qed.

Lemma Update_assertions_hold_witness :
  reachable WorkedExample.engine0 /\ Update WorkedExample.engine0 <> Abort.
Proof.
  split; [exact WorkedExample_engine0_reachable|].
  exact (Update_assertions_hold WorkedExample.engine0
           WorkedExample_engine0_reachable).
Defined.

Lemma reachable_finished_iff_empty_witness :
  reachable WorkedExample.small1
  /\ (FrameFinished WorkedExample.small1 = true
      <-> frame_empty WorkedExample.small1 = true)
  /\ (frame_empty WorkedExample.small1 = true ->
      frame_iterator WorkedExample.small1 = 0).
Proof.
  split; [exact WorkedExample_small1_reachable|].
  exact (reachable_finished_iff_empty WorkedExample.small1
           WorkedExample_small1_reachable).
Defined.

Lemma RingBufferTransferCount_within_frame_witness :
  engine_ok (fetched WorkedExample.small0)
  /\ RingBufferTransferCount (fetched WorkedExample.small0)
     = Ok 3 (fetched WorkedExample.small0)
  /\ fetched WorkedExample.small0 = fetched WorkedExample.small0
  /\ 3 <= RingBufferWriteCapacity (fetched WorkedExample.small0)
  /\ (0 <= 3 ->
      ByteCountForSampleCount (fetched WorkedExample.small0) 3
      = 3 * bytes_per_sample (av (fetched WorkedExample.small0))
      /\ ByteCountForSampleCount (fetched WorkedExample.small0) 3
         <= Z.of_nat
              (length (skipn (Z.to_nat (frame_iterator
                                          (fetched WorkedExample.small0)))
                             (frame (fetched WorkedExample.small0))))).
Proof.
  assert (Hok : engine_ok (fetched WorkedExample.small0)).
  { apply fetched_engine_ok, reachable_engine_ok, reach_new,
      WorkedExample_decoder_ok. }
  assert (HT : RingBufferTransferCount (fetched WorkedExample.small0)
               = Ok 3 (fetched WorkedExample.small0))
    by (vm_compute; reflexivity).
  split; [exact Hok|]. split; [exact HT|].
  exact (RingBufferTransferCount_within_frame _ _ 3 Hok HT).
Defined.

Lemma Update_keeps_position_and_frame_in_progress_witness :
  engine_ok WorkedExample.small0
  /\ ((exists more, Update WorkedExample.small0 = Ok more WorkedExample.small1)
      \/ (exists e, Update WorkedExample.small0 = Throw e WorkedExample.small1))
  /\ position_sample_count WorkedExample.small1
     = position_sample_count WorkedExample.small0
  /\ (frame WorkedExample.small0 <> [] ->
      av WorkedExample.small1 = av WorkedExample.small0).
Proof.
  assert (Hok : engine_ok WorkedExample.small0)
    by (apply reachable_engine_ok, reach_new, WorkedExample_decoder_ok).
  assert (HU : (exists more,
                   Update WorkedExample.small0 = Ok more WorkedExample.small1)
               \/ (exists e,
                      Update WorkedExample.small0
                      = Throw e WorkedExample.small1)).
  { left. exists true. vm_compute. reflexivity. }
  split; [exact Hok|]. split; [exact HU|].
  exact (Update_keeps_position_and_frame_in_progress _ _ Hok HU).
Defined.

Lemma Update_with_full_ring_buffer_witness :
  engine_ok WorkedExample.small1
  /\ RingBufferWriteCapacity WorkedExample.small1 <= 0
  /\ exists more st',
      Update WorkedExample.small1 = Ok more st'
      /\ ring_buf st' = ring_buf WorkedExample.small1
      /\ position_sample_count st'
         = position_sample_count WorkedExample.small1
      /\ (frame WorkedExample.small1 <> [] ->
          more = true /\ frame st' = frame WorkedExample.small1
          /\ frame_iterator st' = frame_iterator WorkedExample.small1)
      /\ (frame WorkedExample.small1 = [] ->
          frame st' = fst (Decode (av WorkedExample.small1))
          /\ frame_iterator st' = 0
          /\ more = negb (frame_empty st')).
Proof.
  assert (Hok : engine_ok WorkedExample.small1)
    by (apply reachable_engine_ok, WorkedExample_small1_reachable).
  assert (Hc : RingBufferWriteCapacity WorkedExample.small1 <= 0)
    by (vm_compute; discriminate).
  split; [exact Hok|]. split; [exact Hc|].
  exact (Update_with_full_ring_buffer _ Hok Hc).
Defined.

Lemma Update_throw_consumes_nothing_witness :
  engine_ok WorkedExample.slow0
  /\ Update WorkedExample.slow0
     = Throw (InternalError MSG_OUTPUT_RINGWRITE) Runs.slow_thrown
  /\ frame Runs.slow_thrown
     = (if frame_empty WorkedExample.slow0
        then fst (Decode (av WorkedExample.slow0))
        else frame WorkedExample.slow0)
  /\ frame Runs.slow_thrown <> []
  /\ frame_iterator Runs.slow_thrown = frame_iterator WorkedExample.slow0
  /\ file_ended Runs.slow_thrown = file_ended WorkedExample.slow0
  /\ position_sample_count Runs.slow_thrown
     = position_sample_count WorkedExample.slow0.
Proof.
  assert (HU : Update WorkedExample.slow0
               = Throw (InternalError MSG_OUTPUT_RINGWRITE) Runs.slow_thrown)
    by (vm_compute; reflexivity).
  split; [exact WorkedExample_slow0_engine_ok|]. split; [exact HU|].
  exact (Update_throw_consumes_nothing _ _ WorkedExample_slow0_engine_ok HU).
Defined.

Lemma Update_conserves_capacity_witness :
  RingBufferLaws SpecRing.t
  /\ engine_ok WorkedExample.small0
  /\ Update WorkedExample.small0 = Ok true WorkedExample.small1
  /\ exists n,
      0 <= n <= WriteCapacity (ring_buf WorkedExample.small0)
      /\ ReadCapacity (ring_buf WorkedExample.small1)
         = ReadCapacity (ring_buf WorkedExample.small0) + n
      /\ WriteCapacity (ring_buf WorkedExample.small1)
         = WriteCapacity (ring_buf WorkedExample.small0) - n.
Proof.
  assert (Hok : engine_ok WorkedExample.small0)
    by (apply reachable_engine_ok, reach_new, WorkedExample_decoder_ok).
  assert (HU : Update WorkedExample.small0 = Ok true WorkedExample.small1)
    by (vm_compute; reflexivity).
  split; [exact SpecRing_RingBufferLaws|]. split; [exact Hok|].
  split; [exact HU|].
  exact (@Update_conserves_capacity SpecRing.t SpecRing_RingBuffer
           SpecRing_RingBufferLaws WorkedExample.small0 WorkedExample.small1
           true Hok HU).
Defined.

Lemma Update_writes_what_fits_witness :
  RingBufferLaws SpecRing.t
  /\ engine_ok WorkedExample.small0
  /\ frame WorkedExample.small0 = []
  /\ 0 < 5
  /\ Z.of_nat (length (fst (Decode (av WorkedExample.small0))))
     = 5 * bytes_per_sample (av WorkedExample.small0)
  /\ 0 < WriteCapacity (ring_buf WorkedExample.small0)
  /\ exists st',
      Update WorkedExample.small0 = Ok true st'
      /\ ReadCapacity (ring_buf st')
         = ReadCapacity (ring_buf WorkedExample.small0)
           + Z.min 5 (WriteCapacity (ring_buf WorkedExample.small0))
      /\ WriteCapacity (ring_buf st')
         = WriteCapacity (ring_buf WorkedExample.small0)
           - Z.min 5 (WriteCapacity (ring_buf WorkedExample.small0))
      /\ file_ended st' = false
      /\ (if 5 <=? WriteCapacity (ring_buf WorkedExample.small0)
          then frame st' = [] /\ frame_iterator st' = 0
          else frame st' = fst (Decode (av WorkedExample.small0))
               /\ frame_iterator st'
                  = WriteCapacity (ring_buf WorkedExample.small0)
                    * bytes_per_sample (av WorkedExample.small0)).
Proof.
  assert (Hok : engine_ok WorkedExample.small0)
    by (apply reachable_engine_ok, reach_new, WorkedExample_decoder_ok).
  assert (H1 : frame WorkedExample.small0 = []) by reflexivity.
  assert (H2 : 0 < 5) by lia.
  assert (H3 : Z.of_nat (length (fst (Decode (av WorkedExample.small0))))
               = 5 * bytes_per_sample (av WorkedExample.small0))
    by reflexivity.
  assert (H4 : 0 < WriteCapacity (ring_buf WorkedExample.small0))
    by reflexivity.
  split; [exact SpecRing_RingBufferLaws|]. split; [exact Hok|].
  split; [exact H1|]. split; [exact H2|]. split; [exact H3|].
  split; [exact H4|].
  exact (@Update_writes_what_fits SpecRing.t SpecRing_RingBuffer
           SpecRing_RingBufferLaws WorkedExample.small0 5 Hok H1 H2 H3 H4).
Defined.

Lemma reachable_frame_holds_whole_samples_witness :
  reachable WorkedExample.small1
  /\ frames_whole (av WorkedExample.small1)
  /\ (frame_end WorkedExample.small1 - frame_iterator WorkedExample.small1)
     mod bytes_per_sample (av WorkedExample.small1) = 0.
Proof.
  assert (Hw : frames_whole (av WorkedExample.small1))
    by (intros [|i]; reflexivity).
  split; [exact WorkedExample_small1_reachable|]. split; [exact Hw|].
  exact (reachable_frame_holds_whole_samples _
           WorkedExample_small1_reachable Hw).
Defined.

Lemma Seek_then_Update_fetches_anew_witness :
  RingBufferLaws SpecRing.t
  /\ engine_ok WorkedExample.small1
  /\ (let f := fst (Decode (DecoderSeekToPositionMicroseconds
                              (av WorkedExample.small1) 0)) in
      exists more st',
        Update (SeekToPositionMicroseconds 0 WorkedExample.small1)
        = Ok more st'
        /\ more = negb (match f with [] => true | _ :: _ => false end)
        /\ FileEnded st' = negb more
        /\ (frame st' = [] \/ frame st' = f)).
Proof.
  assert (Hok : engine_ok WorkedExample.small1)
    by (apply reachable_engine_ok, WorkedExample_small1_reachable).
  split; [exact SpecRing_RingBufferLaws|]. split; [exact Hok|].
  exact (@Seek_then_Update_fetches_anew SpecRing.t SpecRing_RingBuffer
           SpecRing_RingBufferLaws 0 WorkedExample.small1 Hok).
Defined.

Lemma paCallbackFun_ends_witness :
  RingBufferLaws SpecRing.t
  /\ 0 <= 2 < two64
  /\ exists result mem' st',
      paCallbackFunRacing [(0%nat, 1%nat)] WorkedExample.out 2 blank
                          TwoFrames.engine1
      = Some (result, mem', st')
      /\ ((fst result = paContinue /\ snd result = 2)
          \/ (fst result = paComplete /\ 0 <= snd result < 2
              /\ FileEnded st' = true)).
Proof.
  assert (Hn : 0 <= 2 < two64) by (split; [lia|reflexivity]).
  split; [exact SpecRing_RingBufferLaws|]. split; [exact Hn|].
  exact (@paCallbackFun_ends SpecRing.t SpecRing_RingBuffer
           SpecRing_RingBufferLaws [(0%nat, 1%nat)] WorkedExample.out 2 blank
           TwoFrames.engine1 Hn).
Defined.

(** The schedule of that run matters: the second sample reaches the ring
    buffer inside the first step, after [ReadCapacity()] was read as 1,
    and is drained by the second step. *)
Example paCallbackFunRacing_two_drains :
  match paCallbackFunRacing [(0%nat, 1%nat)] WorkedExample.out 2 blank
                            TwoFrames.engine1 with
  | Some (result, _, st') =>
      result = (paContinue, 2)
      /\ position_sample_count st' = 2
      /\ ReadCapacity (ring_buf st') = 0
  | None => False
  end.
Proof. vm_compute. repeat split; reflexivity. Qed.

(** "Complete" does not mean that the ring buffer was drained: on the
    worked example, if the fill context writes the 5 samples and meets
    the end of the stream after the callback read [ReadCapacity()] as 0
    and before it tests [FileEnded()], the callback returns "complete"
    with nothing supplied and 5 samples left to read. *)
Example paCallbackFunRacing_complete_with_samples_unread :
  match paCallbackFunRacing [(0%nat, 2%nat)] WorkedExample.out 6 blank
                            WorkedExample.engine0 with
  | Some (result, _, st') =>
      result = (paComplete, 0)
      /\ FileEnded st' = true
      /\ ReadCapacity (ring_buf st') = 5
  | None => False
  end.
Proof. vm_compute. repeat split; reflexivity. Qed.

Lemma paCallbackFun_alone_keeps_fill_state_witness :
  paCallbackFun [] WorkedExample.out 5 blank WorkedExample.engine2
  = Some ((paContinue, 5), Runs.mem5, WorkedExample.engine3)
  /\ av WorkedExample.engine3 = av WorkedExample.engine2
  /\ frame WorkedExample.engine3 = frame WorkedExample.engine2
  /\ frame_iterator WorkedExample.engine3
     = frame_iterator WorkedExample.engine2
  /\ file_ended WorkedExample.engine3 = file_ended WorkedExample.engine2.
Proof.
  assert (HC : paCallbackFun [] WorkedExample.out 5 blank WorkedExample.engine2
               = Some ((paContinue, 5), Runs.mem5, WorkedExample.engine3))
    by (vm_compute; reflexivity).
  split; [exact HC|].
  exact (paCallbackFun_alone_keeps_fill_state _ _ _ _ _ _ _ HC).
Defined.

Lemma paCallbackFun_underrun_is_silence_witness :
  0 < 6
  /\ ReadCapacity (ring_buf WorkedExample.engine0) = 0
  /\ FileEnded WorkedExample.engine0 = false
  /\ exists mem',
      paCallbackFun [] WorkedExample.out 6 blank WorkedExample.engine0
      = Some ((paContinue, 6), mem', WorkedExample.engine0)
      /\ (forall a,
             WorkedExample.out <= a
             < WorkedExample.out
               + ByteCountForSampleCount WorkedExample.engine0 6 ->
             mem' a = Byte.x00)
      /\ (forall a,
             ~ (WorkedExample.out <= a
                < WorkedExample.out
                  + ByteCountForSampleCount WorkedExample.engine0 6) ->
             mem' a = blank a).
Proof.
  assert (H1 : 0 < 6) by lia.
  assert (H2 : ReadCapacity (ring_buf WorkedExample.engine0) = 0)
    by reflexivity.
  assert (H3 : FileEnded WorkedExample.engine0 = false) by reflexivity.
  split; [exact H1|]. split; [exact H2|]. split; [exact H3|].
  exact (paCallbackFun_underrun_is_silence WorkedExample.out 6 blank
           WorkedExample.engine0 H1 H2 H3).
Defined.

Lemma Seek_then_callback_is_silence_witness :
  RingBufferLaws SpecRing.t
  /\ 0 < 6
  /\ (let st1 := SeekToPositionMicroseconds 3000 WorkedExample.engine2 in
      paCallbackFun [] WorkedExample.out 6 blank st1
      = Some ((paContinue, 6),
              memset blank WorkedExample.out Byte.x00
                     (ByteCountForSampleCount st1 6), st1)
      /\ position_sample_count st1
         = SampleCountForPositionMicroseconds (av st1) 3000).
Proof.
  assert (H1 : 0 < 6) by lia.
  split; [exact SpecRing_RingBufferLaws|]. split; [exact H1|].
  exact (@Seek_then_callback_is_silence SpecRing.t SpecRing_RingBuffer
           SpecRing_RingBufferLaws 3000 WorkedExample.out 6 blank
           WorkedExample.engine2 H1).
Defined.

Lemma paCallbackFun_alone_witness :
  RingBufferLaws SpecRing.t
  /\ 0 < 6 <= LONG_MAX
  /\ 0 <= position_sample_count WorkedExample.engine2 < two64
  /\ (let a := ReadCapacity (ring_buf WorkedExample.engine2) in
      exists result mem' st',
        paCallbackFun [] WorkedExample.out 6 blank WorkedExample.engine2
        = Some (result, mem', st')
        /\ result = (if 6 <=? a then (paContinue, 6)
                     else if FileEnded WorkedExample.engine2
                          then (paComplete, a)
                          else (paContinue, 6))
        /\ position_sample_count st'
           = wrap64 (position_sample_count WorkedExample.engine2 + Z.min 6 a)
        /\ ReadCapacity (ring_buf st') = a - Z.min 6 a).
Proof.
  assert (H1 : 0 < 6 <= LONG_MAX) by (split; [lia|discriminate]).
  assert (H2 : 0 <= position_sample_count WorkedExample.engine2 < two64)
    by (split; [discriminate|reflexivity]).
  split; [exact SpecRing_RingBufferLaws|]. split; [exact H1|].
  split; [exact H2|].
  exact (@paCallbackFun_alone SpecRing.t SpecRing_RingBuffer
           SpecRing_RingBufferLaws WorkedExample.out 6 blank
           WorkedExample.engine2 H1 H2).
Defined.

Lemma paCallbackFun_alone_writes_inside_buffer_witness :
  RingBufferLaws SpecRing.t
  /\ 0 < 5 <= LONG_MAX
  /\ Z.of_nat
       (length
          (fst (fst (Read (ring_buf WorkedExample.engine2)
                          (Z.min 5 (ReadCapacity
                                      (ring_buf WorkedExample.engine2)))))))
     <= ByteCountForSampleCount WorkedExample.engine2 5
  /\ paCallbackFun [] WorkedExample.out 5 blank WorkedExample.engine2
     = Some ((paContinue, 5), Runs.mem5, WorkedExample.engine3)
  /\ forall a,
      ~ (WorkedExample.out <= a
         < WorkedExample.out
           + ByteCountForSampleCount WorkedExample.engine2 5) ->
      Runs.mem5 a = blank a.
Proof.
  assert (H1 : 0 < 5 <= LONG_MAX) by (split; [lia|discriminate]).
  assert (H2 : Z.of_nat
                 (length
                    (fst (fst (Read (ring_buf WorkedExample.engine2)
                                    (Z.min 5 (ReadCapacity
                                                (ring_buf
                                                   WorkedExample.engine2)))))))
               <= ByteCountForSampleCount WorkedExample.engine2 5)
    by (vm_compute; discriminate).
  assert (HC : paCallbackFun [] WorkedExample.out 5 blank WorkedExample.engine2
               = Some ((paContinue, 5), Runs.mem5, WorkedExample.engine3))
    by (vm_compute; reflexivity).
  split; [exact SpecRing_RingBufferLaws|]. split; [exact H1|].
  split; [exact H2|]. split; [exact HC|].
  exact (@paCallbackFun_alone_writes_inside_buffer SpecRing.t
           SpecRing_RingBuffer SpecRing_RingBufferLaws WorkedExample.out 5
           blank Runs.mem5 WorkedExample.engine2 WorkedExample.engine3
           (paContinue, 5) H1 H2 HC).
Defined.

Lemma PreFillRingBuffer_leaves_enough_to_read_witness :
  RingBufferLaws SpecRing.t
  /\ reachable WorkedExample.engine0
  /\ frames_whole (av WorkedExample.engine0)
  /\ 0 <= 4 <= 8
  /\ 8 < two64
  /\ ReadCapacity (ring_buf WorkedExample.engine0)
     + WriteCapacity (ring_buf WorkedExample.engine0) = 8
  /\ exists more st',
      PreFillRingBuffer 8 4
        (S (Z.to_nat (WriteCapacity (ring_buf WorkedExample.engine0))))
        WorkedExample.engine0
      = Some (Ok more st')
      /\ ReadCapacity (ring_buf st') + WriteCapacity (ring_buf st') = 8
      /\ ReadCapacity (ring_buf WorkedExample.engine0)
         <= ReadCapacity (ring_buf st')
      /\ position_sample_count st'
         = position_sample_count WorkedExample.engine0
      /\ (4 <= ReadCapacity (ring_buf st') \/ FileEnded st' = true).
Proof.
  assert (H3 : 0 <= 4 <= 8) by lia.
  assert (H4 : 8 < two64) by reflexivity.
  assert (H5 : ReadCapacity (ring_buf WorkedExample.engine0)
               + WriteCapacity (ring_buf WorkedExample.engine0) = 8)
    by reflexivity.
  split; [exact SpecRing_RingBufferLaws|].
  split; [exact WorkedExample_engine0_reachable|].
  split; [exact WorkedExample_frames_whole|].
  split; [exact H3|]. split; [exact H4|]. split; [exact H5|].
  exact (@PreFillRingBuffer_leaves_enough_to_read SpecRing.t
           SpecRing_RingBuffer SpecRing_RingBufferLaws 8 4
           WorkedExample.engine0 WorkedExample_engine0_reachable
           WorkedExample_frames_whole H3 H4 H5).
Defined.

Lemma SAFE_FREE_twice_witness :
  16 <> Cuppa.NULL
  /\ Cuppa.accessible Cuppa.heap0 16 = true
  /\ (Cuppa.cells Cuppa.heap0 16 = Cuppa.NULL
      \/ (exists size,
             In (Cuppa.cells Cuppa.heap0 16, size) (Cuppa.live Cuppa.heap0)))
  /\ (forall size,
         In (Cuppa.cells Cuppa.heap0 16, size) (Cuppa.live Cuppa.heap0) ->
         Cuppa.inside 16 (Cuppa.cells Cuppa.heap0 16, size) = false)
  /\ exists h',
      Cuppa.SAFE_FREE 16 Cuppa.heap0 = Some h'
      /\ Cuppa.cells h' 16 = Cuppa.NULL
      /\ (Cuppa.cells Cuppa.heap0 16 <> Cuppa.NULL ->
          forall size, ~ In (Cuppa.cells Cuppa.heap0 16, size) (Cuppa.live h'))
      /\ (forall blk, fst blk <> Cuppa.cells Cuppa.heap0 16 ->
                      (In blk (Cuppa.live h')
                       <-> In blk (Cuppa.live Cuppa.heap0)))
      /\ Cuppa.SAFE_FREE 16 h' = Some h'.
Proof.
  assert (H1 : 16 <> Cuppa.NULL) by discriminate.
  assert (H2 : Cuppa.accessible Cuppa.heap0 16 = true) by reflexivity.
  assert (H3 : Cuppa.cells Cuppa.heap0 16 = Cuppa.NULL
               \/ (exists size,
                      In (Cuppa.cells Cuppa.heap0 16, size)
                         (Cuppa.live Cuppa.heap0)))
    by (right; exists 8; left; reflexivity).
  assert (H4 : forall size,
             In (Cuppa.cells Cuppa.heap0 16, size) (Cuppa.live Cuppa.heap0) ->
             Cuppa.inside 16 (Cuppa.cells Cuppa.heap0 16, size) = false).
  { intros size _. reflexivity. }
  split; [exact H1|]. split; [exact H2|]. split; [exact H3|].
  split; [exact H4|].
  exact (SAFE_FREE_twice 16 Cuppa.heap0 H1 H2 H3 H4).
Defined.
